(** * Span finder: candidate extraction, reference labels, loss, score alignment

    A shallow embedding of
    [src/spacy_experimental/span_finder/span_finder_component.py].

    - Python integers are [Z]; token indices are the [Z] images of positions.
    - Scores are IEEE-754 numbers ([spec_float]); the arithmetic of [get_loss]
      is the binary32 one ([float32] arrays), comparisons are exact.
    - A [Doc] is an object on a heap indexed by object identity, so that two
      entries of a batch may be the same document.
    - A function that may raise returns an [Outcome]. *)

From Stdlib Require Import ZArith Bool Lia ZifyBool SpecFloat.
From stdpp Require Import base list gmap strings fin_maps functions sorting.

Local Open Scope Z_scope.

(** ** Numbers *)

Abbreviation float := spec_float.

Module F32.
(** binary32: 24 bits of precision, exponents below 128. *)
Definition prec : Z := 24.
Definition emax : Z := 128.

Definition add : float → float → float := SFadd prec emax.
Definition sub : float → float → float := SFsub prec emax.
Definition mul : float → float → float := SFmul prec emax.

Definition zero : float := S754_zero false.
Definition one : float := S754_finite false 8388608 (-23).
Definition half : float := S754_finite false 8388608 (-24).

(** [asarray(..., dtype=float32)] on a Python integer. *)
Definition of_Z (z : Z) : float := binary_normalize prec emax z 0 false.
End F32.

(** A finite number is [mantissa * 2 ^ exponent], whatever its format. *)
Definition mantissa (x : float) : Z :=
  match x with
  | S754_finite s m e => if s then Z.neg m else Z.pos m
  | _ => 0
  end.

Definition exponent (x : float) : Z :=
  match x with
  | S754_finite s m e => e
  | _ => 0
  end.

(** The comparison of a [float32] score with a Python [float]: the score is
    widened to binary64 without rounding, so the two numbers are compared as
    the numbers they stand for; nothing compares with a NaN. *)
Definition float_compare (x y : float) : option comparison :=
  match x, y with
  | S754_nan, _ | _, S754_nan => None
  | S754_infinity sx, S754_infinity sy =>
      Some (if sx then (if sy then Eq else Lt) else (if sy then Gt else Eq))
  | S754_infinity sx, _ => Some (if sx then Lt else Gt)
  | _, S754_infinity sy => Some (if sy then Gt else Lt)
  | _, _ =>
      let e := Z.min (exponent x) (exponent y) in
      Some (Z.compare (mantissa x * 2 ^ (exponent x - e))
                      (mantissa y * 2 ^ (exponent y - e)))
  end.

(** [x >= y]: false as soon as one side is a NaN. *)
Definition float_geb (x y : float) : bool :=
  match float_compare x y with
  | Some Eq | Some Gt => true
  | _ => false
  end.

(** ** Data model *)

Record Span := mkSpan { start : Z; end_ : Z }.

Abbreviation SpanGroup := (list Span).

(** [len(doc)] and [doc.spans]. *)
Record Doc := mkDoc { doc_len : nat; spans : gmap string SpanGroup }.

Definition set_spans (doc : Doc) (m : gmap string SpanGroup) : Doc :=
  {| doc_len := doc_len doc; spans := m |}.

(** The tokens of a document, as their indices [token.i]. *)
Definition tokens (doc : Doc) : list Z := seqZ 0 (Z.of_nat (doc_len doc)).

Abbreviation DocId := nat.
Abbreviation Heap := (DocId → Doc).

Record Example := mkExample { predicted : DocId; reference : DocId }.

(** A [Floats2d] of shape (n, 2): one (start, end) pair per row. *)
Abbreviation Floats2d := (list (float * float)).

Inductive exn := ValueError | ScorerError.

Inductive Outcome (A : Type) :=
| Returned (a : A)
| Raised (e : exn).
Arguments Returned {A} a.
Arguments Raised {A} e.

Definition DEFAULT_CANDIDATES_KEY : string := "span_candidates".
Definition DEFAULT_REFERENCE_KEY : string := "sc".

(** The fields of a [SpanFinder] instance that the methods below read. *)
Record SpanFinder := mkSpanFinder {
  threshold : float;
  max_length : Z;
  min_length : Z;
  candidates_key : string;
  reference_key : string
}.

(** ** [SpanFinder.set_annotations] *)

(** [scores[offset : offset + length]]: slicing clamps at the end of the array. *)
Definition slice (scores : Floats2d) (offset length : nat) : Floats2d :=
  take length (drop offset scores).

(** Lines 200-204. *)
Fixpoint split_scores (scores : Floats2d) (offset : nat) (lengths : list nat)
  : list Floats2d :=
  match lengths with
  | [] => []
  | length :: lengths' =>
      slice scores offset length :: split_scores scores (offset + length) lengths'
  end.

(** Lines 211-215: one pass over [zip(doc, doc_scores)]. *)
Definition scan_step (thr : float) (acc : list Z * list Z) (x : Z * (float * float))
  : list Z * list Z :=
  let '(i, token_score) := x in
  (if float_geb token_score.1 thr then acc.1 ++ [i] else acc.1,
   if float_geb token_score.2 thr then acc.2 ++ [i] else acc.2).

Definition scan_tokens (thr : float) (toks : list Z) (doc_scores : Floats2d)
  : list Z * list Z :=
  foldl (scan_step thr) ([], []) (zip toks doc_scores).

(** Lines 221-223. *)
Definition length_ok (self : SpanFinder) (span_length : Z) : bool :=
  ((min_length self <=? 0) || (min_length self <=? span_length))
  && ((max_length self <=? 0) || (span_length <=? max_length self)).

(** Lines 218-226: the loop over [ends] for one [start]; leaving the recursion
    is the [break]. [group] is [doc.spans[candidates_key]]. *)
Fixpoint ends_loop (self : SpanFinder) (start_i : Z) (ends : list Z)
  (group : SpanGroup) : SpanGroup :=
  match ends with
  | [] => group
  | end_i :: ends' =>
      let span_length := end_i + 1 - start_i in
      if 0 <? span_length then
        if length_ok self span_length then
          ends_loop self start_i ends' (group ++ [mkSpan start_i (end_i + 1)])
        else if (0 <? max_length self) && (max_length self <? span_length) then
          group
        else ends_loop self start_i ends' group
      else ends_loop self start_i ends' group
  end.

(** Line 217. *)
Definition starts_loop (self : SpanFinder) (starts ends : list Z)
  (group : SpanGroup) : SpanGroup :=
  foldl (λ g start_i, ends_loop self start_i ends g) group starts.

(** Lines 207-226: the body of the loop over documents. *)
Definition annotate_doc (self : SpanFinder) (doc : Doc) (doc_scores : Floats2d)
  : Doc :=
  let '(starts, ends) := scan_tokens (threshold self) (tokens doc) doc_scores in
  set_spans doc
    (<[candidates_key self := starts_loop self starts ends []]> (spans doc)).

(** Line 206, one iteration: the document [d] is updated in place. *)
Definition annotate_step (self : SpanFinder) (h : Heap) (x : DocId * Floats2d)
  : Heap :=
  <[x.1 := annotate_doc self (h x.1) x.2]> h.

Definition set_annotations (self : SpanFinder) (docs : list DocId)
  (scores : Floats2d) (h : Heap) : Heap :=
  let lengths := (λ d, doc_len (h d)) <$> docs in
  let scores_per_doc := split_scores scores 0 lengths in
  foldl (annotate_step self) h (zip docs scores_per_doc).

(** ** [SpanFinder._get_reference] *)

(** Lines 277-283: the two index sets of one document. *)
Definition index_step (acc : gset Z * gset Z) (span : Span) : gset Z * gset Z :=
  (acc.1 ∪ {[start span]}, acc.2 ∪ {[end_ span - 1]}).

Definition reference_indices (self : SpanFinder) (doc : Doc) : gset Z * gset Z :=
  match spans doc !! reference_key self with
  | Some group => foldl index_step (∅, ∅) group
  | None => (∅, ∅)
  end.

(** Lines 285-291: the rows of one document. *)
Definition doc_rows (self : SpanFinder) (doc : Doc) : list (Z * Z) :=
  let '(start_indices, end_indices) := reference_indices self doc in
  (λ i, (if bool_decide (i ∈ start_indices) then 1 else 0,
         if bool_decide (i ∈ end_indices) then 1 else 0)) <$> tokens doc.

Definition _get_reference (self : SpanFinder) (docs : list Doc) : list (Z * Z) :=
  concat (doc_rows self <$> docs).

(** ** [SpanFinder.get_loss] *)

(** The arrays that reach the subtraction: [scores] has shape (n, 2); the array
    made from the list of rows has shape (m, 2), or (0,) when the list is
    empty. *)
Inductive ndarray :=
| Vec (xs : list float)
| Mat (rows : Floats2d).

Definition shape (a : ndarray) : list nat :=
  match a with
  | Vec xs => [length xs]
  | Mat rows => [length rows; 2%nat]
  end.

(** The conversion of the rows to [float32]. *)
Definition to_float32 (rows : list (Z * Z)) : Floats2d :=
  (λ r, (F32.of_Z r.1, F32.of_Z r.2)) <$> rows.

Definition asarray (rows : list (Z * Z)) : ndarray :=
  match rows with
  | [] => Vec []
  | _ => Mat (to_float32 rows)
  end.

Definition row_sub (a b : float * float) : float * float :=
  (F32.sub a.1 b.1, F32.sub a.2 b.2).

(** [scores - reference_results], with the broadcasting of the array library:
    two axes are compatible when they are equal or one of them is 1. *)
Definition subtract (scores : Floats2d) (r : ndarray) : Outcome Floats2d :=
  match r with
  | Vec [x] => Returned ((λ a, row_sub a (x, x)) <$> scores)
  | Vec [x; y] => Returned ((λ a, row_sub a (x, y)) <$> scores)
  | Vec _ => Raised ValueError
  | Mat rows =>
      match scores, rows with
      | [a], _ => Returned (row_sub a <$> rows)
      | _, [b] => Returned ((λ a, row_sub a b) <$> scores)
      | _, _ =>
          if bool_decide (length scores = length rows)
          then Returned (zip_with row_sub scores rows)
          else Raised ValueError
      end
  end.

Definition square (x : float) : float := F32.mul x x.

Definition entries (m : Floats2d) : list float := m ≫= (λ r, [r.1; r.2]).

Section Summation.
(** The summation of the array library over the entries of a contiguous array,
    for an addition [add]: fewer than 8 entries are added one after the other;
    up to 128 entries go through eight running sums, each fed every eighth
    entry, which are then added in pairs, the entries left over being added one
    after the other; longer arrays are cut in two at a multiple of 8. *)
Context {T : Type}.
Variable add : T → T → T.
Variable zero : T.

Fixpoint accumulate8 (r : list T) (a : list T) (blocks : nat)
  : list T * list T :=
  match blocks with
  | O => (r, a)
  | S blocks' => accumulate8 (zip_with add r (take 8 a)) (drop 8 a) blocks'
  end.

Definition combine8 (r : list T) : T :=
  match r with
  | [r0; r1; r2; r3; r4; r5; r6; r7] =>
      add (add (add r0 r1) (add r2 r3)) (add (add r4 r5) (add r6 r7))
  | _ => zero
  end.

Definition block_sum (a : list T) : T :=
  let '(r, rest) := accumulate8 (take 8 a) (drop 8 a) (length a / 8 - 1) in
  foldl add (combine8 r) rest.

(** [fuel] bounds the depth of the cutting; the length of the array is
    enough. *)
Fixpoint pairwise_sum (fuel : nat) (a : list T) : T :=
  if (length a <? 8)%nat then foldl add zero a
  else if (length a <=? 128)%nat then block_sum a
  else match fuel with
       | O => block_sum a
       | S fuel' =>
           let n2 := (length a / 2)%nat in
           let n2 := (n2 - n2 mod 8)%nat in
           add (pairwise_sum fuel' (take n2 a)) (pairwise_sum fuel' (drop n2 a))
       end.

(** The reduction starts from the identity of the addition. *)
Definition np_sum (a : list T) : T := add zero (pairwise_sum (length a) a).
End Summation.

(** [.sum()] over all entries of a [float32] array, in row-major order. The
    entries summed by [get_loss] are squares, never a negative zero, so the
    sign of the zero the reduction starts from does not show. *)
Definition sum (xs : list float) : float := np_sum F32.add F32.zero xs.

(** Lines 269-271. *)
Definition loss_of (scores : Floats2d) (reference_results : ndarray)
  : Outcome (float * Floats2d) :=
  match subtract scores reference_results with
  | Returned d_scores => Returned (sum (square <$> entries d_scores), d_scores)
  | Raised e => Raised e
  end.

(** Lines 265 and 267: the rows of the reference documents of the examples. *)
Definition reference_of (self : SpanFinder) (h : Heap) (examples : list Example)
  : list (Z * Z) :=
  _get_reference self ((λ eg, h (reference eg)) <$> examples).

Definition get_loss (self : SpanFinder) (h : Heap) (examples : list Example)
  (scores : Floats2d) : Outcome (float * Floats2d) :=
  let reference_results := asarray (reference_of self h examples) in
  loss_of scores reference_results.

(** ** [span_finder_score] *)

(** Keyword arguments of [Scorer.score_spans]; [None] is an absent key. *)
Record Kwargs := mkKwargs {
  attr : option string;
  allow_overlap : option bool;
  getter : option (Doc → string → SpanGroup);
  labeled : option bool;
  has_annotation : option (Doc → bool)
}.

Definition setdefault {A} (o : option A) (a : A) : option A :=
  match o with Some x => Some x | None => Some a end.

Definition attr_prefix : string := "span_finder_".

(** [key[len(attr_prefix):]] *)
Definition strip_prefix (key : string) : string :=
  String.substring (String.length attr_prefix)
    (String.length key - String.length attr_prefix) key.

(** Lines 119-127. *)
Definition scorer_kwargs (candidates_key : string) (kwargs : Kwargs) : Kwargs :=
  {| attr := setdefault (attr kwargs) (String.append attr_prefix candidates_key);
     allow_overlap := setdefault (allow_overlap kwargs) true;
     getter := setdefault (getter kwargs)
                 (λ doc key, default [] (spans doc !! strip_prefix key));
     labeled := setdefault (labeled kwargs) false;
     has_annotation := setdefault (has_annotation kwargs)
                 (λ doc, bool_decide (is_Some (spans doc !! candidates_key))) |}.

(** [doc.spans[key] = group] on the object [d]. *)
Definition store_group (key : string) (group : SpanGroup) (d : DocId) (h : Heap)
  : Heap :=
  <[d := set_spans (h d) (<[key := group]> (spans (h d)))]> h.

(** Lines 134-135. *)
Definition copy_reference (candidates_key reference_key : string)
  (h : Heap) (eg : Example) : Heap :=
  match spans (h (reference eg)) !! reference_key with
  | Some group => store_group candidates_key group (reference eg) h
  | None => h
  end.

(** Lines 132-135, one iteration. *)
Definition copy_step (candidates_key reference_key : string)
  (st : list (option SpanGroup) * Heap) (eg : Example)
  : list (option SpanGroup) * Heap :=
  (st.1 ++ [spans (st.2 (reference eg)) !! candidates_key],
   copy_reference candidates_key reference_key st.2 eg).

(** Lines 137-139, one iteration. *)
Definition restore_step (candidates_key : string) (h : Heap)
  (x : option SpanGroup * Example) : Heap :=
  match x.1 with
  | Some orig_span_group =>
      store_group candidates_key orig_span_group (reference x.2) h
  | None => h
  end.

Section Scoring.
(** [Scorer.score_spans] belongs to the scoring library: it reads the
    documents and either returns its table of scores or raises. *)
Context {Scores : Type}.
Variable score_spans : Heap → list Example → Kwargs → Outcome Scores.

Definition span_finder_score (examples : list Example)
  (candidates_key reference_key : string) (kwargs : Kwargs) (h : Heap)
  : Outcome Scores * Heap :=
  let kwargs := scorer_kwargs candidates_key kwargs in
  let '(orig_span_groups, h1) :=
    foldl (copy_step candidates_key reference_key) ([], h) examples in
  match score_spans h1 examples kwargs with
  | Returned scores =>
      (Returned scores,
       foldl (restore_step candidates_key) h1 (zip orig_span_groups examples))
  | Raised e => (Raised e, h1)
  end.
End Scoring.

(** ** [SpanFinder.update] and [SpanFinder.initialize] *)

Module F64.
(** binary64, the format of a Python [float]. *)
Definition prec : Z := 53.
Definition emax : Z := 1024.

Definition add : float → float → float := SFadd prec emax.
Definition zero : float := S754_zero false.
End F64.

(** [d.setdefault(key, value)] on a dictionary. *)
Definition dict_setdefault (key : string) (value : float)
  (d : gmap string float) : gmap string float :=
  match d !! key with
  | Some _ => d
  | None => <[key := value]> d
  end.

(** Lines 309-311, one iteration. *)
Definition subbatch_step (subbatch : list Example) (eg : Example)
  : list Example :=
  if (length subbatch <? 10)%nat then subbatch ++ [eg] else subbatch.

Section Training.
(** The model belongs to the machine-learning library. Its state is a value of
    [Model]; [begin_update] returns the scores and the callback that propagates
    a gradient; [model_initialize] takes the sample [X] and [Y] when there is
    one. *)
Context {Model Optimizer : Type}.
Variable set_dropout_rate : Model → float → Model.
Variable begin_update : Model → list Doc → Floats2d * (Floats2d → Model → Model).
Variable finish_update : Optimizer → Model → Model.
Variable model_initialize : option (list Doc * ndarray) → Model → Model.

(** Lines 245-256. [name] is [self.name]. The result carries the outcome, the
    [losses] dictionary as the call leaves it, and the state of the model. *)
Definition update (self : SpanFinder) (name : string) (h : Heap)
  (examples : list Example) (drop : float) (sgd : option Optimizer)
  (losses : option (gmap string float)) (m : Model)
  : Outcome (gmap string float) * (gmap string float * Model) :=
  let losses := default ∅ losses in
  let losses := dict_setdefault name F64.zero losses in
  let predicted := (λ eg, h (predicted eg)) <$> examples in
  let m := set_dropout_rate m drop in
  let '(scores, backprop_scores) := begin_update m predicted in
  match get_loss self h examples scores with
  | Returned (loss, d_scores) =>
      let m := backprop_scores d_scores m in
      let m := match sgd with
               | Some optimizer => finish_update optimizer m
               | None => m
               end in
      let losses := alter (λ total, F64.add total loss) name losses in
      (Returned losses, (losses, m))
  | Raised e => (Raised e, (losses, m))
  end.

(** Lines 307-318. [get_examples] is the list the callable produces. *)
Definition initialize (self : SpanFinder) (h : Heap)
  (get_examples : list Example) (m : Model) : Model :=
  let subbatch := foldl subbatch_step [] get_examples in
  match subbatch with
  | [] => model_initialize None m
  | _ =>
      let docs := (λ eg, h (reference eg)) <$> subbatch in
      let Y := asarray (_get_reference self docs) in
      model_initialize (Some (docs, Y)) m
  end.
End Training.

(** ** The candidate loop as the specification words it *)

(** Follows the specification's words (section 4.1, step 2): every pair of the
    cross product of [starts] and [ends], skipped when [length <= 0], emitted
    when [length] meets the bounds, a bound of 0 being unset. *)
Definition spec_emits (min_length max_length : Z) (s e : Z) : bool :=
  let length := e + 1 - s in
  (0 <? length)
  && ((min_length =? 0) || (min_length <=? length))
  && ((max_length =? 0) || (length <=? max_length)).

Definition spec_cross_product (min_length max_length : Z)
  (starts ends : list Z) : list Span :=
  s ← starts; e ← ends;
  if spec_emits min_length max_length s e then [mkSpan s (e + 1)] else [].

(** * Auxiliary definitions for the statements *)

(** What holds of a span the candidate loop appends. *)
Definition emitted_from (self : SpanFinder) (starts ends : list Z) (span : Span)
  : Prop :=
  start span ∈ starts ∧ end_ span - 1 ∈ ends
  ∧ 0 < end_ span - start span
  ∧ length_ok self (end_ span - start span) = true.

(** The tests of lines 212 and 214 on an entry of [zip(doc, doc_scores)]. *)
Definition is_start (thr : float) (x : Z * (float * float)) : Prop :=
  float_geb x.2.1 thr = true.
Definition is_end (thr : float) (x : Z * (float * float)) : Prop :=
  float_geb x.2.2 thr = true.

#[local] Instance is_start_dec thr x : Decision (is_start thr x).
Proof. unfold is_start. apply _. Defined.
#[local] Instance is_end_dec thr x : Decision (is_end thr x).
Proof. unfold is_end. apply _. Defined.

(** Two documents that differ at most in the group stored under [key]. *)
Definition same_but (key : string) (doc doc' : Doc) : Prop :=
  doc_len doc = doc_len doc'
  ∧ ∀ k, k ≠ key → spans doc !! k = spans doc' !! k.

(** The rows handed to the document [d] that comes after [docs1] in a batch. *)
Definition offset_of (h : Heap) (docs1 : list DocId) : nat :=
  sum_list_with (λ d, doc_len (h d)) docs1.

Definition doc_slice (h : Heap) (docs1 : list DocId) (d : DocId)
  (scores : Floats2d) : Floats2d :=
  slice scores (offset_of h docs1) (doc_len (h d)).

Definition zeros (n : nat) : Floats2d := replicate n (F32.zero, F32.zero).

(** Some span of the reference group starts at token [i]; some span of the
    reference group has token [i] as its last one. *)
Definition starts_at (self : SpanFinder) (doc : Doc) (i : Z) : Prop :=
  ∃ group span,
    spans doc !! reference_key self = Some group ∧ span ∈ group
    ∧ start span = i.

Definition ends_at (self : SpanFinder) (doc : Doc) (i : Z) : Prop :=
  ∃ group span,
    spans doc !! reference_key self = Some group ∧ span ∈ group
    ∧ end_ span - 1 = i.

(** What [eg.reference.spans.get(candidates_key)] gives on the heap [h]. *)
Definition origs_of (candidates_key : string) (h : Heap)
  (examples : list Example) : list (option SpanGroup) :=
  (λ eg, spans (h (reference eg)) !! candidates_key) <$> examples.

(** Token [i] of [doc] has a row in [doc_scores] whose start score, or end
    score, reaches the threshold. *)
Definition start_token (thr : float) (doc : Doc) (doc_scores : Floats2d) (i : Z)
  : Prop :=
  ∃ (k : nat) (token_score : float * float),
    i = Z.of_nat k ∧ (k < doc_len doc)%nat
    ∧ doc_scores !! k = Some token_score
    ∧ float_geb token_score.1 thr = true.

Definition end_token (thr : float) (doc : Doc) (doc_scores : Floats2d) (i : Z)
  : Prop :=
  ∃ (k : nat) (token_score : float * float),
    i = Z.of_nat k ∧ (k < doc_len doc)%nat
    ∧ doc_scores !! k = Some token_score
    ∧ float_geb token_score.2 thr = true.

(** The order in which the loops emit: by start, then by end. *)
Definition span_lt (a b : Span) : Prop :=
  start a < start b ∨ (start a = start b ∧ end_ a < end_ b).

(** The rows [_get_reference] builds for the documents [docs] of the heap. *)
Definition reference_matrix (self : SpanFinder) (h : Heap) (docs : list DocId)
  : Floats2d :=
  to_float32 (_get_reference self (h <$> docs)).

(** The heap on which [span_finder_score] calls the scorer. *)
Definition copied_heap (candidates_key reference_key : string) (h : Heap)
  (examples : list Example) : Heap :=
  foldl (copy_reference candidates_key reference_key) h examples.

(** The plain sum of a list of integers. *)
Definition Zsum (l : list Z) : Z := foldr Z.add 0 l.

(** ** Concrete documents, scores and scorers *)

(** A batch of one four-token document whose scores put the starts at tokens
    0 and 2 and the ends at tokens 1 and 3 for a threshold of one half. *)
Definition doc4 : Doc := mkDoc 4 (<["span_candidates"%string := [mkSpan 1 2]]> ∅).
Definition heap4 : Heap := λ _, doc4.
Definition scores4 : Floats2d :=
  [(F32.one, F32.zero); (F32.zero, F32.one); (F32.one, F32.zero); (F32.zero, F32.one)].
(** Scores in binary32 and thresholds in binary64: 0.25, 0.5, 2.0, and the
    values nearest to 0.7 in the two formats, the binary32 one being the
    smaller. *)
Definition quarter32 : float := S754_finite false 8388608 (-25).
Definition half64 : float := S754_finite false 4503599627370496 (-53).
Definition two64 : float := S754_finite false 4503599627370496 (-51).
Definition seven_tenths32 : float := S754_finite false 11744051 (-24).
Definition seven_tenths64 : float := S754_finite false 6305039478318694 (-53).

(** The [float32] values nearest to 0.5, 0.9, 0.4, 0.4, 0.8, 0.9, 0.9, 0.8. *)
Definition scores_tenths : Floats2d :=
  [(S754_finite false 8388608 (-24), S754_finite false 15099494 (-24));
   (S754_finite false 13421773 (-25), S754_finite false 13421773 (-25));
   (S754_finite false 13421773 (-24), S754_finite false 15099494 (-24));
   (S754_finite false 15099494 (-24), S754_finite false 13421773 (-24))].
Definition finder (max_length min_length : Z) : SpanFinder :=
  mkSpanFinder F32.half max_length min_length
    DEFAULT_CANDIDATES_KEY DEFAULT_REFERENCE_KEY.

Definition gold_doc : Doc :=
  mkDoc 5 (<[DEFAULT_REFERENCE_KEY := [mkSpan 1 3]]> ∅).

(** A two-token reference document whose rows are (1,0) and (0,0): its one
    gold span starts at token 0 and is empty. *)
Definition doc2 : Doc := mkDoc 2 (<[DEFAULT_REFERENCE_KEY := [mkSpan 0 0]]> ∅).
Definition heap2 : Heap := λ _, doc2.
Definition heap_gold : Heap := λ _, gold_doc.

(** A reference document with a gold group and a group already stored under
    the candidates key, and one with a gold group only. *)
Definition scored_doc : Doc :=
  mkDoc 3 (<[DEFAULT_REFERENCE_KEY := [mkSpan 0 2]]>
             (<[DEFAULT_CANDIDATES_KEY := [mkSpan 1 3]]> ∅)).
Definition gold_only_doc : Doc :=
  mkDoc 3 (<[DEFAULT_REFERENCE_KEY := [mkSpan 0 2]]> ∅).
Definition scored_heap : Heap := λ _, scored_doc.
Definition gold_only_heap : Heap := λ _, gold_only_doc.

Definition no_kwargs : Kwargs := mkKwargs None None None None None.

(** Two stand-ins for the scoring library: one raises, one returns the number
    of reference documents that have a group under the candidates key. *)
Definition raising_scorer (h : Heap) (examples : list Example) (kwargs : Kwargs)
  : Outcome nat :=
  Raised ScorerError.

Definition counting_scorer (h : Heap) (examples : list Example) (kwargs : Kwargs)
  : Outcome nat :=
  Returned
    (length (filter (λ eg, is_Some (spans (h (reference eg))
                                      !! DEFAULT_CANDIDATES_KEY)) examples)).

(** A stand-in for the model: its state counts the gradients it has been
    given; an optimizer step adds 100, setting the dropout rate changes
    nothing, and an initialisation records the number of sample documents. *)
Definition toy_set_dropout_rate (m : nat) (rate : float) : nat := m.
Definition toy_begin_update (m : nat) (docs : list Doc)
  : Floats2d * (Floats2d → nat → nat) :=
  ([(F32.one, F32.zero); (F32.zero, F32.one)], λ d_scores m', S m').
Definition toy_finish_update (optimizer : unit) (m : nat) : nat := (m + 100)%nat.
Definition toy_initialize (sample : option (list Doc * ndarray)) (m : nat) : nat :=
  match sample with
  | Some (docs, Y) => length docs
  | None => 0%nat
  end.
Definition toy_update (h : Heap) (examples : list Example)
  (losses : option (gmap string float))
  : Outcome (gmap string float) * (gmap string float * nat) :=
  update toy_set_dropout_rate toy_begin_update toy_finish_update (finder 0 0)
    "span_finder" h examples F32.zero (Some tt) losses 0%nat.

(** * Properties *)

(** ** The candidate loop *)

Section CandidateLoop.
Variable self : SpanFinder.

Lemma ends_loop_app s ends group :
  ends_loop self s ends group = group ++ ends_loop self s ends [].
Proof.
  revert group. induction ends as [|e ends IH]; intros group; simpl.
  - by rewrite app_nil_r.
  - destruct (0 <? e + 1 - s); [|apply IH].
    destruct (length_ok self (e + 1 - s)).
    + rewrite IH, (IH [_]). by rewrite app_assoc.
    + destruct (_ && _); [by rewrite app_nil_r | apply IH].
Qed.

Lemma starts_loop_cons s starts ends group :
  starts_loop self (s :: starts) ends group
  = starts_loop self starts ends (ends_loop self s ends group).
Proof. done. Qed.

Lemma starts_loop_app starts ends group :
  starts_loop self starts ends group = group ++ starts_loop self starts ends [].
Proof.
  revert group. induction starts as [|s starts IH]; intros group.
  - simpl. by rewrite app_nil_r.
  - rewrite !starts_loop_cons, IH, (IH (ends_loop _ _ _ [])), ends_loop_app.
    by rewrite app_assoc.
Qed.

Lemma starts_loop_unfold s starts ends :
  starts_loop self (s :: starts) ends []
  = ends_loop self s ends [] ++ starts_loop self starts ends [].
Proof. by rewrite starts_loop_cons, starts_loop_app. Qed.

Lemma starts_loop_nil_r starts group : starts_loop self starts [] group = group.
Proof. induction starts as [|s starts IH]; [done|]. by rewrite starts_loop_cons. Qed.

Lemma ends_loop_emitted s ends :
  Forall (emitted_from self [s] ends) (ends_loop self s ends []).
Proof.
  induction ends as [|e ends IH]; simpl; [constructor|].
  assert (Forall (emitted_from self [s] (e :: ends)) (ends_loop self s ends []))
    as IH'.
  { eapply Forall_impl; [exact IH|].
    intros span (?&?&?&?). repeat split; try done. by apply list_elem_of_further. }
  destruct (0 <? e + 1 - s) eqn:Hpos; [|done].
  destruct (length_ok self (e + 1 - s)) eqn:Hok.
  - rewrite ends_loop_app. apply Forall_app; split; [|done].
    apply Forall_singleton. apply Z.ltb_lt in Hpos.
    repeat split; simpl.
    + apply list_elem_of_singleton; done.
    + replace (e + 1 - 1) with e by lia. apply list_elem_of_here.
    + lia.
    + exact Hok.
  - destruct (_ && _); [constructor | done].
Qed.

Lemma starts_loop_emitted starts ends :
  Forall (emitted_from self starts ends) (starts_loop self starts ends []).
Proof.
  induction starts as [|s starts IH]; [constructor|].
  rewrite starts_loop_unfold. apply Forall_app; split.
  - eapply Forall_impl; [apply ends_loop_emitted|].
    intros span (Hs&?&?&?). repeat split; try done.
    apply list_elem_of_singleton in Hs. rewrite Hs. apply list_elem_of_here.
  - eapply Forall_impl; [exact IH|].
    intros span (?&?&?&?). repeat split; try done. by apply list_elem_of_further.
Qed.

Lemma length_ok_bounds n :
  0 ≤ min_length self → 0 ≤ max_length self → length_ok self n = true →
  (min_length self ≠ 0 → min_length self ≤ n)
  ∧ (max_length self ≠ 0 → n ≤ max_length self).
Proof. unfold length_ok. lia. Qed.

Lemma length_ok_spec s e :
  0 ≤ min_length self → 0 ≤ max_length self →
  spec_emits (min_length self) (max_length self) s e
  = (0 <? e + 1 - s) && length_ok self (e + 1 - s).
Proof.
  intros Hmin Hmax. unfold spec_emits, length_ok. simpl. lia.
Qed.

(** Once the loop has left at [e], no later end of an ascending list would
    have been emitted. *)
Lemma spec_none_after_break s e ends :
  0 < max_length self → max_length self < e + 1 - s →
  Forall (Z.le e) ends →
  (e' ← ends;
   if spec_emits (min_length self) (max_length self) s e'
   then [mkSpan s (e' + 1)] else []) = [].
Proof.
  intros Hmax Hlen. induction 1 as [|e' ends Hle _ IH]; [done|].
  rewrite bind_cons, IH, app_nil_r.
  replace (spec_emits (min_length self) (max_length self) s e') with false;
    [done | unfold spec_emits; lia].
Qed.

Lemma ends_loop_cross_product s ends :
  0 ≤ min_length self → 0 ≤ max_length self →
  StronglySorted Z.le ends →
  ends_loop self s ends []
  = (e ← ends;
     if spec_emits (min_length self) (max_length self) s e
     then [mkSpan s (e + 1)] else []).
Proof.
  intros Hmin Hmax. induction 1 as [|e ends Hsorted IH Hall]; [done|].
  rewrite bind_cons, length_ok_spec by done. simpl.
  destruct (0 <? e + 1 - s) eqn:Hpos; simpl; [|exact IH].
  destruct (length_ok self (e + 1 - s)) eqn:Hok.
  - by rewrite ends_loop_app, IH.
  - destruct (_ && _) eqn:Hbreak; [|exact IH].
    symmetry. apply (spec_none_after_break s e); [lia | lia | done].
Qed.
End CandidateLoop.

(** C5: on an ascending list of ends, the loop with its [break] emits the same
    spans, in the same order, as the cross product of starts and ends filtered
    by the length conditions alone. *)
Theorem break_refines_cross_product (self : SpanFinder) (starts ends : list Z) :
  0 ≤ min_length self → 0 ≤ max_length self →
  Sorted Z.le ends →
  starts_loop self starts ends []
  = spec_cross_product (min_length self) (max_length self) starts ends.
Proof.
  intros Hmin Hmax Hsorted.
  apply Sorted_StronglySorted in Hsorted; [|intros x y z; lia].
  unfold spec_cross_product.
  induction starts as [|s starts IH]; [done|].
  rewrite starts_loop_unfold, bind_cons, IH.
  f_equal. by apply ends_loop_cross_product.
Qed.

Lemma break_refines_cross_product_witness :
  starts_loop (finder 2 0) [0; 2] [1; 3; 5] []
  = spec_cross_product 0 2 [0; 2] [1; 3; 5].
Proof.
  apply (break_refines_cross_product (finder 2 0) [0; 2] [1; 3; 5]).
  - simpl. lia.
  - simpl. lia.
  - repeat (constructor; try lia).
Defined.

(** The [break] is tied to the order of the ends: on a descending list the two
    differ. *)
Example break_on_descending_ends :
  starts_loop (finder 2 0) [0] [3; 1] [] = []
  ∧ spec_cross_product 0 2 [0] [3; 1] = [mkSpan 0 2].
Proof. split; reflexivity. Qed.

(** C6: starts {0, 2} and ends {1, 3} without bounds give [0,2), [0,4), [2,4)
    in this order; the pair (2, 1) has length 0 and is skipped. *)
Theorem unbounded_candidates_example :
  (∀ thr ck rk,
     starts_loop (mkSpanFinder thr 0 0 ck rk) [0; 2] [1; 3] []
     = [mkSpan 0 2; mkSpan 0 4; mkSpan 2 4])
  ∧ scan_tokens F32.half (tokens doc4) scores4 = ([0; 2], [1; 3])
  ∧ spans (set_annotations (finder 0 0) [0%nat] scores4 heap4 0%nat)
      !! DEFAULT_CANDIDATES_KEY
    = Some [mkSpan 0 2; mkSpan 0 4; mkSpan 2 4]
  ∧ (0 <? 1 + 1 - 2) = false.
Proof. repeat split; vm_compute; reflexivity. Qed.

(** C7: with [max_length = 2] the same starts and ends give [0,2) and [2,4);
    [0,4) has length 4. *)
Theorem max_length_2_candidates_example :
  (∀ thr ck rk,
     starts_loop (mkSpanFinder thr 2 0 ck rk) [0; 2] [1; 3] []
     = [mkSpan 0 2; mkSpan 2 4])
  ∧ spans (set_annotations (finder 2 0) [0%nat] scores4 heap4 0%nat)
      !! DEFAULT_CANDIDATES_KEY
    = Some [mkSpan 0 2; mkSpan 2 4]
  ∧ length_ok (finder 2 0) (3 + 1 - 0) = false.
Proof. repeat split; vm_compute; reflexivity. Qed.

(** ** Thresholding *)

Lemma scan_fold thr l acc :
  foldl (scan_step thr) acc l
  = (acc.1 ++ (filter (is_start thr) l).*1, acc.2 ++ (filter (is_end thr) l).*1).
Proof.
  revert acc. induction l as [|[i [a b]] l IH]; intros [starts ends].
  - simpl. by rewrite !app_nil_r.
  - simpl foldl. rewrite IH, !filter_cons. simpl.
    destruct (decide (is_start thr (i, (a, b)))) as [Hs|Hs],
             (decide (is_end thr (i, (a, b)))) as [He|He];
      unfold is_start, is_end in Hs, He; simpl in Hs, He;
      try apply not_true_is_false in Hs; try apply not_true_is_false in He;
      rewrite Hs, He; simpl; by rewrite <- ?app_assoc.
Qed.

Lemma scan_tokens_filter thr toks doc_scores :
  scan_tokens thr toks doc_scores
  = ((filter (is_start thr) (zip toks doc_scores)).*1,
     (filter (is_end thr) (zip toks doc_scores)).*1).
Proof. unfold scan_tokens. by rewrite scan_fold. Qed.

(** An index that passed the threshold belongs to a token that has a row. *)
Lemma zip_tokens_bound (n : nat) (doc_scores : Floats2d) i :
  i ∈ (zip (seqZ 0 (Z.of_nat n)) doc_scores).*1 →
  0 ≤ i < Z.of_nat (n `min` length doc_scores).
Proof.
  intros ([i' sc] & -> & Hin)%list_elem_of_fmap.
  apply list_elem_of_lookup in Hin as [k Hk].
  apply lookup_zip_with_Some in Hk as (i'' & sc' & [= <- <-] & Hi & Hsc).
  apply lookup_seqZ in Hi as [-> ?]. apply lookup_lt_Some in Hsc. simpl. lia.
Qed.

Lemma scan_tokens_bound thr doc doc_scores i :
  i ∈ (scan_tokens thr (tokens doc) doc_scores).1
  ∨ i ∈ (scan_tokens thr (tokens doc) doc_scores).2 →
  0 ≤ i < Z.of_nat (doc_len doc `min` length doc_scores).
Proof.
  rewrite scan_tokens_filter. unfold tokens. simpl.
  intros [Hin|Hin]; apply zip_tokens_bound;
    apply list_elem_of_fmap in Hin as (x & -> & Hx);
    apply list_elem_of_filter in Hx as [_ Hx];
    by apply list_elem_of_fmap_2.
Qed.

(** ** Documents of a batch *)

Lemma same_but_refl key doc : same_but key doc doc.
Proof. by split. Qed.

Lemma same_but_trans key doc1 doc2 doc3 :
  same_but key doc1 doc2 → same_but key doc2 doc3 → same_but key doc1 doc3.
Proof.
  intros [Hl1 Hs1] [Hl2 Hs2]. split; [congruence|].
  intros k Hk. by rewrite Hs1, Hs2.
Qed.

Section Batch.
Variable self : SpanFinder.

Lemma annotate_doc_spans doc doc_scores :
  spans (annotate_doc self doc doc_scores)
  = <[candidates_key self :=
        starts_loop self
          (scan_tokens (threshold self) (tokens doc) doc_scores).1
          (scan_tokens (threshold self) (tokens doc) doc_scores).2 []]>
      (spans doc).
Proof. unfold annotate_doc. by destruct (scan_tokens _ _ _). Qed.

Lemma annotate_doc_len doc doc_scores :
  doc_len (annotate_doc self doc doc_scores) = doc_len doc.
Proof. unfold annotate_doc. by destruct (scan_tokens _ _ _). Qed.

Lemma annotate_doc_same doc doc_scores :
  same_but (candidates_key self) (annotate_doc self doc doc_scores) doc.
Proof.
  split; [apply annotate_doc_len|].
  intros k Hk. rewrite annotate_doc_spans. by apply lookup_insert_ne.
Qed.

Lemma annotate_doc_same_but doc doc' doc_scores :
  same_but (candidates_key self) doc doc' →
  annotate_doc self doc doc_scores = annotate_doc self doc' doc_scores.
Proof.
  intros [Hlen Hspans].
  pose proof (annotate_doc_spans doc doc_scores) as H1.
  pose proof (annotate_doc_spans doc' doc_scores) as H2.
  pose proof (annotate_doc_len doc doc_scores) as L1.
  pose proof (annotate_doc_len doc' doc_scores) as L2.
  destruct (annotate_doc self doc doc_scores) as [n1 m1],
           (annotate_doc self doc' doc_scores) as [n2 m2].
  simpl in *. subst n1 n2 m1 m2. f_equal; [done|].
  unfold tokens. rewrite Hlen. apply map_eq. intros k.
  destruct (decide (k = candidates_key self)) as [->|Hk].
  - by rewrite !lookup_insert_eq.
  - rewrite !lookup_insert_ne by done. by apply Hspans.
Qed.

Lemma annotate_all_same l (h : Heap) d :
  same_but (candidates_key self) (foldl (annotate_step self) h l d) (h d).
Proof.
  revert h. induction l as [|[d' ds] l IH]; intros h; [apply same_but_refl|].
  simpl. eapply same_but_trans; [apply IH|].
  unfold annotate_step. simpl. destruct (decide (d' = d)) as [->|Hd].
  - rewrite fn_lookup_insert. apply annotate_doc_same.
  - rewrite fn_lookup_insert_ne by done. apply same_but_refl.
Qed.

Lemma annotate_all_other l (h : Heap) d :
  d ∉ l.*1 → foldl (annotate_step self) h l d = h d.
Proof.
  revert h. induction l as [|[d' ds] l IH]; intros h Hd; [done|].
  simpl in *. apply not_elem_of_cons in Hd as [Hne Hd].
  rewrite IH by done. unfold annotate_step. simpl.
  by rewrite fn_lookup_insert_ne.
Qed.

Lemma split_scores_length scores offset lengths :
  length (split_scores scores offset lengths) = length lengths.
Proof.
  revert offset. induction lengths as [|n lengths IH]; intros offset; simpl;
    [done | by rewrite IH].
Qed.

Lemma split_scores_app scores offset lengths lengths' :
  split_scores scores offset (lengths ++ lengths')
  = split_scores scores offset lengths
    ++ split_scores scores (offset + sum_list lengths) lengths'.
Proof.
  revert offset. induction lengths as [|n lengths IH]; intros offset; simpl.
  - by rewrite Nat.add_0_r.
  - rewrite IH. do 3 f_equal. unfold id. lia.
Qed.

Lemma sum_lengths (h : Heap) docs :
  sum_list ((λ d, doc_len (h d)) <$> docs)
  = sum_list_with (λ d, doc_len (h d)) docs.
Proof.
  induction docs as [|d docs IH]; [done|].
  rewrite fmap_cons. simpl. f_equal. exact IH.
Qed.

(** The group of a document is the one computed at its last place in the
    batch, from the slice that starts after the tokens of the documents
    before it. *)
Lemma set_annotations_last docs1 d docs2 scores (h : Heap) :
  d ∉ docs2 →
  set_annotations self (docs1 ++ d :: docs2) scores h d
  = annotate_doc self (h d)
      (slice scores (sum_list_with (λ d, doc_len (h d)) docs1) (doc_len (h d))).
Proof.
  intros Hd. unfold set_annotations.
  rewrite fmap_app, split_scores_app, fmap_cons. simpl split_scores.
  rewrite zip_with_app
    by (by rewrite split_scores_length, length_fmap).
  simpl zip_with. rewrite foldl_app. simpl foldl.
  rewrite annotate_all_other.
  - unfold annotate_step at 1. simpl. rewrite fn_lookup_insert.
    rewrite sum_lengths. apply annotate_doc_same_but, annotate_all_same.
  - rewrite fst_zip; [done|].
    by rewrite split_scores_length, length_fmap.
Qed.

Lemma set_annotations_other docs scores (h : Heap) d :
  d ∉ docs → set_annotations self docs scores h d = h d.
Proof.
  intros Hd. unfold set_annotations. apply annotate_all_other.
  rewrite fst_zip; [done|]. by rewrite split_scores_length, length_fmap.
Qed.

Lemma slice_length (scores : Floats2d) offset n :
  length (slice scores offset n) = (n `min` (length scores - offset))%nat.
Proof. unfold slice. by rewrite length_take, length_drop. Qed.
End Batch.

(** C4: every span that [set_annotations] stores under the candidates key has
    length at least 1, at least [min_length] when that is not 0 and at most
    [max_length] when that is not 0. *)
Theorem emitted_span_lengths (self : SpanFinder) (docs : list DocId)
  (scores : Floats2d) (h : Heap) (d : DocId) (group : SpanGroup) (span : Span) :
  0 ≤ min_length self → 0 ≤ max_length self →
  d ∈ docs →
  spans (set_annotations self docs scores h d) !! candidates_key self
    = Some group →
  span ∈ group →
  1 ≤ end_ span - start span
  ∧ (min_length self ≠ 0 → min_length self ≤ end_ span - start span)
  ∧ (max_length self ≠ 0 → end_ span - start span ≤ max_length self).
Proof.
  intros Hmin Hmax Hd Hgroup Hspan.
  apply list_elem_of_split_r in Hd as (docs1 & docs2 & -> & Hlast).
  rewrite set_annotations_last, annotate_doc_spans, lookup_insert_eq in Hgroup
    by done.
  injection Hgroup as <-.
  eapply Forall_forall in Hspan; [|apply starts_loop_emitted].
  destruct Hspan as (_ & _ & Hpos & Hok).
  split; [lia|]. by apply length_ok_bounds.
Qed.

Lemma emitted_span_lengths_witness :
  1 ≤ 2 - 0 ∧ (2 ≠ 0 → 2 ≤ 2 - 0) ∧ (3 ≠ 0 → 2 - 0 ≤ 3).
Proof.
  apply (emitted_span_lengths (finder 3 2) [0%nat] scores4 heap4 0%nat
           [mkSpan 0 2; mkSpan 2 4] (mkSpan 0 2)).
  - simpl. lia.
  - simpl. lia.
  - apply list_elem_of_here.
  - vm_compute. reflexivity.
  - apply list_elem_of_here.
Defined.

(** C9: when no token passes the threshold as a start, or none as an end, the
    document ends with an empty group under the candidates key, whatever was
    stored there before. *)
Theorem empty_thresholds_empty_group (self : SpanFinder)
  (docs1 : list DocId) (d : DocId) (docs2 : list DocId)
  (scores : Floats2d) (h : Heap) :
  d ∉ docs2 →
  (scan_tokens (threshold self) (tokens (h d)) (doc_slice h docs1 d scores)).1 = []
  ∨ (scan_tokens (threshold self) (tokens (h d)) (doc_slice h docs1 d scores)).2 = [] →
  spans (set_annotations self (docs1 ++ d :: docs2) scores h d)
    !! candidates_key self = Some [].
Proof.
  intros Hlast Hempty.
  rewrite set_annotations_last, annotate_doc_spans, lookup_insert_eq by done.
  f_equal. unfold doc_slice, offset_of in Hempty.
  destruct Hempty as [-> | ->]; [done | apply starts_loop_nil_r].
Qed.

Lemma empty_thresholds_empty_group_witness :
  spans (heap4 0%nat) !! DEFAULT_CANDIDATES_KEY = Some [mkSpan 1 2]
  ∧ spans (set_annotations (finder 0 0) ([] ++ 0%nat :: []) (zeros 4) heap4 0%nat)
      !! DEFAULT_CANDIDATES_KEY = Some [].
Proof.
  split; [vm_compute; reflexivity|].
  apply (empty_thresholds_empty_group (finder 0 0) [] 0%nat [] (zeros 4) heap4).
  - apply not_elem_of_nil.
  - left. vm_compute. reflexivity.
Defined.

Lemma split_scores_extra (scores extra : Floats2d) offset lengths :
  (offset + sum_list lengths ≤ length scores)%nat →
  split_scores (scores ++ extra) offset lengths
  = split_scores scores offset lengths.
Proof.
  revert offset. induction lengths as [|n lengths IH]; intros offset Hle; [done|].
  change (sum_list (n :: lengths)) with (n + sum_list lengths)%nat in Hle.
  simpl. rewrite IH by lia. f_equal.
  unfold slice. rewrite drop_app_le by lia.
  apply take_app_le. rewrite length_drop. lia.
Qed.

(** C10: the rows are handed out by slicing, without any check against the
    number of tokens. A document whose slice runs past the end of the matrix
    gets fewer rows than it has tokens, only the tokens that have a row can
    become a start or an end, and rows beyond the last token of the batch
    change nothing. [set_annotations] is a total function: it raises in
    neither case. *)
Theorem no_shape_validation (self : SpanFinder)
  (docs1 : list DocId) (d : DocId) (docs2 : list DocId)
  (scores : Floats2d) (h : Heap) :
  d ∉ docs2 →
  set_annotations self (docs1 ++ d :: docs2) scores h d
    = annotate_doc self (h d) (doc_slice h docs1 d scores)
  ∧ length (doc_slice h docs1 d scores)
    = (doc_len (h d) `min` (length scores - offset_of h docs1))%nat
  ∧ ((0 < doc_len (h d))%nat →
     (length scores < offset_of h docs1 + doc_len (h d))%nat →
     (length (doc_slice h docs1 d scores) < doc_len (h d))%nat)
  ∧ (∀ i,
       i ∈ (scan_tokens (threshold self) (tokens (h d))
              (doc_slice h docs1 d scores)).1
       ∨ i ∈ (scan_tokens (threshold self) (tokens (h d))
                (doc_slice h docs1 d scores)).2 →
       0 ≤ i < Z.of_nat (length (doc_slice h docs1 d scores)))
  ∧ (∀ group span,
       spans (set_annotations self (docs1 ++ d :: docs2) scores h d)
         !! candidates_key self = Some group →
       span ∈ group →
       0 ≤ start span
       ∧ end_ span ≤ Z.of_nat (length (doc_slice h docs1 d scores)))
  ∧ (∀ extra,
       (offset_of h (docs1 ++ d :: docs2) ≤ length scores)%nat →
       set_annotations self (docs1 ++ d :: docs2) (scores ++ extra) h
       = set_annotations self (docs1 ++ d :: docs2) scores h).
Proof.
  intros Hlast.
  assert (∀ i,
    i ∈ (scan_tokens (threshold self) (tokens (h d))
           (doc_slice h docs1 d scores)).1
    ∨ i ∈ (scan_tokens (threshold self) (tokens (h d))
             (doc_slice h docs1 d scores)).2 →
    0 ≤ i < Z.of_nat (length (doc_slice h docs1 d scores))) as Hscan.
  { intros i Hi. apply scan_tokens_bound in Hi. lia. }
  split; [by apply set_annotations_last|].
  split; [apply slice_length|].
  split; [unfold doc_slice; rewrite slice_length; lia|].
  split; [exact Hscan|].
  split.
  - intros group span Hgroup Hspan.
    rewrite set_annotations_last, annotate_doc_spans, lookup_insert_eq in Hgroup
      by done.
    injection Hgroup as <-.
    eapply Forall_forall in Hspan; [|apply starts_loop_emitted].
    destruct Hspan as (Hs & He & _ & _).
    pose proof (Hscan _ (or_introl Hs)). pose proof (Hscan _ (or_intror He)).
    lia.
  - intros extra Hle. unfold set_annotations.
    rewrite split_scores_extra; [done|].
    unfold offset_of in Hle. by rewrite sum_lengths.
Qed.

(** Two four-token documents and a matrix of six rows: the second document
    gets two rows, and its spans stay within its first two tokens. *)
Lemma no_shape_validation_witness :
  length (doc_slice heap4 [0%nat] 1%nat (scores4 ++ take 2 scores4)) = 2%nat
  ∧ spans (set_annotations (finder 0 0) ([0%nat] ++ 1%nat :: [])
             (scores4 ++ take 2 scores4) heap4 1%nat)
      !! DEFAULT_CANDIDATES_KEY = Some [mkSpan 0 2].
Proof.
  destruct (no_shape_validation (finder 0 0) [0%nat] 1%nat []
              (scores4 ++ take 2 scores4) heap4) as (Hset & Hlen & _).
  - apply not_elem_of_nil.
  - split.
    + rewrite Hlen. vm_compute. reflexivity.
    + rewrite Hset. vm_compute. reflexivity.
Defined.

(** ** Reference labels *)

Lemma index_fold group (acc : gset Z * gset Z) :
  foldl index_step acc group
  = (acc.1 ∪ list_to_set (start <$> group),
     acc.2 ∪ list_to_set ((λ span, end_ span - 1) <$> group)).
Proof.
  revert acc. induction group as [|span group IH]; intros [si ei].
  - simpl. by rewrite !(right_id_L ∅ (∪)).
  - simpl foldl. rewrite IH. simpl. by rewrite <- !(assoc_L (∪)).
Qed.

Section ReferenceRows.
Variable self : SpanFinder.

Lemma reference_indices_spec doc i :
  (i ∈ (reference_indices self doc).1 ↔ starts_at self doc i)
  ∧ (i ∈ (reference_indices self doc).2 ↔ ends_at self doc i).
Proof.
  unfold reference_indices, starts_at, ends_at.
  destruct (spans doc !! reference_key self) as [group|] eqn:Hgroup.
  - rewrite index_fold. simpl.
    rewrite !elem_of_union, !elem_of_list_to_set, !list_elem_of_fmap.
    split; split.
    + intros [[]%elem_of_empty | (span & -> & Hin)]. by exists group, span.
    + intros (g & span & [= <-] & Hin & <-). right. by exists span.
    + intros [[]%elem_of_empty | (span & -> & Hin)]. by exists group, span.
    + intros (g & span & [= <-] & Hin & <-). right. by exists span.
  - simpl. split; split; try (by intros []%elem_of_empty);
      by intros (g & span & [=] & _).
Qed.

Lemma doc_rows_length doc : length (doc_rows self doc) = doc_len doc.
Proof.
  unfold doc_rows, tokens. destruct (reference_indices self doc).
  rewrite length_fmap, length_seqZ. lia.
Qed.

Lemma get_reference_length docs :
  length (_get_reference self docs) = sum_list_with doc_len docs.
Proof.
  unfold _get_reference. induction docs as [|doc docs IH]; [done|].
  rewrite fmap_cons. simpl. by rewrite length_app, doc_rows_length, IH.
Qed.

Lemma doc_rows_lookup doc (i : nat) :
  (i < doc_len doc)%nat →
  doc_rows self doc !! i
  = Some (if bool_decide (Z.of_nat i ∈ (reference_indices self doc).1)
          then 1 else 0,
          if bool_decide (Z.of_nat i ∈ (reference_indices self doc).2)
          then 1 else 0).
Proof.
  intros Hi. unfold doc_rows, tokens.
  destruct (reference_indices self doc) as [si ei]. simpl.
  rewrite list_lookup_fmap, lookup_seqZ_lt by lia. done.
Qed.

Lemma get_reference_lookup docs1 doc docs2 (i : nat) :
  (i < doc_len doc)%nat →
  _get_reference self (docs1 ++ doc :: docs2)
    !! (sum_list_with doc_len docs1 + i)%nat
  = doc_rows self doc !! i.
Proof.
  intros Hi. unfold _get_reference.
  rewrite fmap_app, concat_app, fmap_cons. simpl.
  rewrite lookup_app_r; fold (_get_reference self docs1);
    rewrite get_reference_length; [|lia].
  replace (sum_list_with doc_len docs1 + i - sum_list_with doc_len docs1)%nat
    with i by lia.
  apply lookup_app_l. by rewrite doc_rows_length.
Qed.
End ReferenceRows.

(** C3: the reference matrix has one row per token, in the order of the
    documents and then of the tokens; the row of token [i] carries 1 in its
    first place exactly when a span of the reference group starts at [i], and 1
    in its second place exactly when one has [i] as its last token; a document
    without the reference key gives rows of zeros. The group {[1,3)} on five
    tokens gives (0,0), (1,0), (0,1), (0,0), (0,0). *)
Theorem reference_rows :
  (∀ (self : SpanFinder) (docs1 : list Doc) (doc : Doc) (docs2 : list Doc)
     (i : nat),
     (i < doc_len doc)%nat →
     length (_get_reference self (docs1 ++ doc :: docs2))
       = sum_list_with doc_len (docs1 ++ doc :: docs2)
     ∧ ∃ a b : Z,
         _get_reference self (docs1 ++ doc :: docs2)
           !! (sum_list_with doc_len docs1 + i)%nat = Some (a, b)
         ∧ (a = 1 ∨ a = 0) ∧ (b = 1 ∨ b = 0)
         ∧ (a = 1 ↔ starts_at self doc (Z.of_nat i))
         ∧ (b = 1 ↔ ends_at self doc (Z.of_nat i))
         ∧ (spans doc !! reference_key self = None → a = 0 ∧ b = 0))
  ∧ _get_reference (finder 0 0) [gold_doc]
    = [(0, 0); (1, 0); (0, 1); (0, 0); (0, 0)].
Proof.
  split; [|vm_compute; reflexivity].
  intros self docs1 doc docs2 i Hi.
  split; [apply get_reference_length|].
  rewrite get_reference_lookup, doc_rows_lookup by done.
  destruct (reference_indices_spec self doc (Z.of_nat i)) as [Hs He].
  eexists _, _. split; [reflexivity|].
  repeat split.
  - case_bool_decide; auto.
  - case_bool_decide; auto.
  - case_bool_decide; [by intros _; apply Hs | done].
  - intros H. case_bool_decide as Hin; [done | by apply Hs in H].
  - case_bool_decide; [by intros _; apply He | done].
  - intros H. case_bool_decide as Hin; [done | by apply He in H].
  - case_bool_decide as Hin; [|done].
    apply Hs in Hin as (g & span & Hg & _). congruence.
  - case_bool_decide as Hin; [|done].
    apply He in Hin as (g & span & Hg & _). congruence.
Qed.

(** Token 1 of the five-token document, in a batch that starts with another
    five-token document. *)
Lemma reference_rows_witness :
  length (_get_reference (finder 0 0) ([mkDoc 5 ∅] ++ gold_doc :: []))
    = sum_list_with doc_len ([mkDoc 5 ∅] ++ gold_doc :: [])
  ∧ ∃ a b : Z,
      _get_reference (finder 0 0) ([mkDoc 5 ∅] ++ gold_doc :: [])
        !! (sum_list_with doc_len [mkDoc 5 ∅] + 1)%nat = Some (a, b)
      ∧ (a = 1 ∨ a = 0) ∧ (b = 1 ∨ b = 0)
      ∧ (a = 1 ↔ starts_at (finder 0 0) gold_doc (Z.of_nat 1))
      ∧ (b = 1 ↔ ends_at (finder 0 0) gold_doc (Z.of_nat 1))
      ∧ (spans gold_doc !! reference_key (finder 0 0) = None → a = 0 ∧ b = 0).
Proof. apply (proj1 reference_rows). vm_compute. lia. Defined.

(** ** Loss *)

Lemma asarray_cases rows :
  (rows = [] ∧ asarray rows = Vec [])
  ∨ (rows ≠ [] ∧ asarray rows = Mat (to_float32 rows)).
Proof. destruct rows; [by left | by right]. Qed.

Lemma to_float32_length rows : length (to_float32 rows) = length rows.
Proof. unfold to_float32. apply length_fmap. Qed.

Lemma subtract_same_length (scores rows : Floats2d) :
  length scores = length rows →
  subtract scores (Mat rows) = Returned (zip_with row_sub scores rows).
Proof.
  intros Hlen. unfold subtract.
  destruct scores as [|a [|a' scores]], rows as [|b [|b' rows]]; try done.
  by rewrite bool_decide_eq_true_2.
Qed.

Lemma subtract_mismatch (scores rows : Floats2d) :
  length scores ≠ length rows → length scores ≠ 1%nat → length rows ≠ 1%nat →
  subtract scores (Mat rows) = Raised ValueError.
Proof.
  intros Hlen Hs Hr. unfold subtract.
  destruct scores as [|a [|a' scores]], rows as [|b [|b' rows]]; try done;
    by rewrite bool_decide_eq_false_2.
Qed.

Lemma subtract_broadcast_scores a (rows : Floats2d) :
  subtract [a] (Mat rows) = Returned (row_sub a <$> rows).
Proof. done. Qed.

Lemma subtract_broadcast_reference (scores : Floats2d) b :
  length scores ≠ 1%nat →
  subtract scores (Mat [b]) = Returned ((λ a, row_sub a b) <$> scores).
Proof. intros Hs. by destruct scores as [|a [|a' scores]]. Qed.

Lemma loss_of_same_shape (scores rows : Floats2d) :
  shape (Mat rows) = shape (Mat scores) →
  loss_of scores (Mat rows)
  = Returned (sum (square <$> entries (zip_with row_sub scores rows)),
              zip_with row_sub scores rows).
Proof.
  intros [= Hlen]. unfold loss_of. by rewrite subtract_same_length.
Qed.

(** *** The summation in exact arithmetic *)

Lemma foldl_Zadd (l : list Z) acc : foldl Z.add acc l = acc + Zsum l.
Proof.
  revert acc. induction l as [|x l IH]; intros acc; simpl; [lia|].
  rewrite IH. lia.
Qed.

Lemma Zsum_app (l k : list Z) : Zsum (l ++ k) = Zsum l + Zsum k.
Proof. induction l as [|x l IH]; simpl; [done|]. rewrite IH. lia. Qed.

Lemma Zsum_take_drop (n : nat) (l : list Z) :
  Zsum (take n l) + Zsum (drop n l) = Zsum l.
Proof. by rewrite <- Zsum_app, take_drop. Qed.

Lemma Zsum_zip_with (r b : list Z) :
  length r = length b → Zsum (zip_with Z.add r b) = Zsum r + Zsum b.
Proof.
  revert b. induction r as [|x r IH]; intros [|y b] Hlen; simpl in *; try done.
  rewrite IH by lia. lia.
Qed.

Lemma accumulate8_Z (blocks : nat) (r a : list Z) :
  length r = 8%nat → (8 * blocks ≤ length a)%nat →
  length (accumulate8 Z.add r a blocks).1 = 8%nat
  ∧ Zsum (accumulate8 Z.add r a blocks).1 + Zsum (accumulate8 Z.add r a blocks).2
    = Zsum r + Zsum a.
Proof.
  revert r a. induction blocks as [|blocks IH]; intros r a Hr Ha; [done|].
  simpl accumulate8.
  destruct (IH (zip_with Z.add r (take 8 a)) (drop 8 a)) as [Hlen Hsum].
  - rewrite length_zip_with, length_take. lia.
  - rewrite length_drop. lia.
  - split; [done|]. rewrite Hsum, Zsum_zip_with.
    + pose proof (Zsum_take_drop 8 a). lia.
    + rewrite length_take. lia.
Qed.

Lemma combine8_Z (r : list Z) : length r = 8%nat → combine8 Z.add 0 r = Zsum r.
Proof.
  intros Hr. do 9 (destruct r as [|? r]; try done). simpl. lia.
Qed.

Lemma block_sum_Z (a : list Z) : (8 ≤ length a)%nat → block_sum Z.add 0 a = Zsum a.
Proof.
  intros Ha. unfold block_sum.
  destruct (accumulate8_Z (length a / 8 - 1) (take 8 a) (drop 8 a))
    as [Hlen Hsum].
  - rewrite length_take. lia.
  - rewrite length_drop. pose proof (Nat.Div0.mul_div_le (length a) 8). lia.
  - destruct (accumulate8 _ _ _ _) as [r rest]. simpl in *.
    rewrite foldl_Zadd, combine8_Z by done.
    pose proof (Zsum_take_drop 8 a). lia.
Qed.

Lemma pairwise_sum_Z (fuel : nat) (a : list Z) :
  pairwise_sum Z.add 0 fuel a = Zsum a.
Proof.
  revert a. induction fuel as [|fuel IH]; intros a; simpl;
    (destruct (Nat.ltb_spec (length a) 8); [by rewrite foldl_Zadd|]);
    destruct (length a <=? 128)%nat; try (by apply block_sum_Z).
  rewrite !IH. apply Zsum_take_drop.
Qed.

Lemma np_sum_Z (l : list Z) : np_sum Z.add 0 l = Zsum l.
Proof. unfold np_sum. by rewrite pairwise_sum_Z. Qed.

Lemma pairwise_sum_unfold {T} (add : T → T → T) (zero : T) (fuel : nat)
  (a : list T) :
  pairwise_sum add zero fuel a
  = if (length a <? 8)%nat then foldl add zero a
    else if (length a <=? 128)%nat then block_sum add zero a
    else match fuel with
         | O => block_sum add zero a
         | S fuel' =>
             add (pairwise_sum add zero fuel'
                    (take (length a / 2 - (length a / 2) mod 8) a))
                 (pairwise_sum add zero fuel'
                    (drop (length a / 2 - (length a / 2) mod 8) a))
         end.
Proof. by destruct fuel. Qed.

(** The length of the array is fuel enough: more changes nothing. *)
Lemma pairwise_sum_fuel {T} (add : T → T → T) (zero : T) (fuel fuel' : nat)
  (a : list T) :
  (length a ≤ fuel)%nat → (length a ≤ fuel')%nat →
  pairwise_sum add zero fuel a = pairwise_sum add zero fuel' a.
Proof.
  revert fuel' a. induction fuel as [|fuel IH]; intros fuel' a Hf Hf';
    rewrite (pairwise_sum_unfold add zero _ a),
            (pairwise_sum_unfold add zero fuel' a);
    (destruct (Nat.ltb_spec (length a) 8); [done|]);
    (destruct (Nat.leb_spec (length a) 128); [done|]); [lia|].
  destruct fuel' as [|fuel']; [lia|].
  pose proof (Nat.Div0.mul_div_le (length a) 2).
  pose proof (Nat.Div0.mod_le (length a / 2) 8).
  assert (64 ≤ length a / 2)%nat by (apply Nat.div_le_lower_bound; lia).
  pose proof (Nat.mod_upper_bound (length a / 2) 8).
  f_equal; apply IH; rewrite ?length_take, ?length_drop; lia.
Qed.

(** *** The loss and the gradient *)

Lemma squares_of_entries (d_scores : Floats2d) :
  square <$> entries d_scores
  = d_scores ≫= λ d, [SFmul 24 128 d.1 d.1; SFmul 24 128 d.2 d.2].
Proof.
  unfold entries. induction d_scores as [|d d_scores IH]; [done|].
  rewrite !bind_cons, fmap_app, IH. done.
Qed.

Lemma loss_of_returned (scores : Floats2d) (r : ndarray) (d_scores : Floats2d) :
  subtract scores r = Returned d_scores →
  loss_of scores r
  = Returned
      (np_sum (SFadd 24 128) (S754_zero false)
         (d_scores ≫= λ d, [SFmul 24 128 d.1 d.1; SFmul 24 128 d.2 d.2]),
       d_scores).
Proof.
  intros Hsub. unfold loss_of. rewrite Hsub, squares_of_entries. done.
Qed.

Lemma loss_of_raised (scores : Floats2d) (r : ndarray) e :
  subtract scores r = Raised e → loss_of scores r = Raised e.
Proof. intros Hsub. unfold loss_of. by rewrite Hsub. Qed.

Lemma difference_rows (scores rows : Floats2d) (i : nat) s r :
  scores !! i = Some s → rows !! i = Some r →
  zip_with row_sub scores rows !! i
  = Some (SFsub 24 128 s.1 r.1, SFsub 24 128 s.2 r.2).
Proof.
  intros Hs Hr. rewrite lookup_zip_with, Hs, Hr. done.
Qed.

Lemma to_float32_row (rows : list (Z * Z)) (i : nat) r :
  rows !! i = Some r →
  to_float32 rows !! i
  = Some (binary_normalize 24 128 r.1 0 false,
          binary_normalize 24 128 r.2 0 false).
Proof. intros Hr. unfold to_float32. by rewrite list_lookup_fmap, Hr. Qed.

Lemma loss_of_difference (scores rows : Floats2d) :
  shape (Mat rows) = shape (Mat scores) →
  ∃ loss d_scores,
    loss_of scores (Mat rows) = Returned (loss, d_scores)
    ∧ length d_scores = length scores
    ∧ (∀ (i : nat) s r,
         scores !! i = Some s → rows !! i = Some r →
         d_scores !! i = Some (SFsub 24 128 s.1 r.1, SFsub 24 128 s.2 r.2))
    ∧ loss = np_sum (SFadd 24 128) (S754_zero false)
               (d_scores ≫= λ d, [SFmul 24 128 d.1 d.1; SFmul 24 128 d.2 d.2]).
Proof.
  intros [= Hlen]. eexists _, (zip_with row_sub scores rows).
  split; [by apply loss_of_returned, subtract_same_length|].
  split; [rewrite length_zip_with; lia|].
  split; [|done]. intros i s r. apply difference_rows.
Qed.

(** C2: on matrices of the same shape [get_loss] returns, as the gradient, the
    matrix of the differences entry by entry, neither halved nor scaled, and,
    as the loss, the sum over all entries of the squares of these differences,
    each operation being the [float32] one; the summation adds every entry
    once and divides by nothing, so that in exact arithmetic it is the plain
    sum. Scores [[1,0],[0,1]] against the reference [[1,0],[0,0]] give the loss
    1.0 and the gradient [[0,0],[0,1]]. *)
Theorem loss_is_summed_squared_difference :
  (∀ scores rows : Floats2d,
     shape (Mat rows) = shape (Mat scores) →
     ∃ loss d_scores,
       loss_of scores (Mat rows) = Returned (loss, d_scores)
       ∧ length d_scores = length scores
       ∧ (∀ (i : nat) s r,
            scores !! i = Some s → rows !! i = Some r →
            d_scores !! i = Some (SFsub 24 128 s.1 r.1, SFsub 24 128 s.2 r.2))
       ∧ loss = np_sum (SFadd 24 128) (S754_zero false)
                  (d_scores ≫= λ d, [SFmul 24 128 d.1 d.1; SFmul 24 128 d.2 d.2]))
  ∧ (∀ (self : SpanFinder) (h : Heap) (examples : list Example)
       (scores : Floats2d),
       shape (asarray (reference_of self h examples)) = shape (Mat scores) →
       ∃ loss d_scores,
         get_loss self h examples scores = Returned (loss, d_scores)
         ∧ length d_scores = length scores
         ∧ (∀ (i : nat) s r,
              scores !! i = Some s → reference_of self h examples !! i = Some r →
              d_scores !! i
              = Some (SFsub 24 128 s.1 (binary_normalize 24 128 r.1 0 false),
                      SFsub 24 128 s.2 (binary_normalize 24 128 r.2 0 false)))
         ∧ loss = np_sum (SFadd 24 128) (S754_zero false)
                    (d_scores ≫= λ d, [SFmul 24 128 d.1 d.1; SFmul 24 128 d.2 d.2]))
  ∧ (∀ l : list Z, np_sum Z.add 0 l = Zsum l)
  ∧ loss_of [(F32.one, F32.zero); (F32.zero, F32.one)]
            (Mat [(F32.one, F32.zero); (F32.zero, F32.zero)])
    = Returned (F32.one, [(F32.zero, F32.zero); (F32.zero, F32.one)])
  ∧ get_loss (finder 0 0) heap2 [mkExample 0 1]
      [(F32.one, F32.zero); (F32.zero, F32.one)]
    = Returned (F32.one, [(F32.zero, F32.zero); (F32.zero, F32.one)]).
Proof.
  split; [exact loss_of_difference|].
  split; [|split; [exact np_sum_Z | split; vm_compute; reflexivity]].
  intros self h examples scores Hshape. unfold get_loss.
  destruct (asarray_cases (reference_of self h examples))
    as [[_ Heq] | [_ Heq]]; rewrite Heq in Hshape |- *; [done|].
  destruct (loss_of_difference scores
              (to_float32 (reference_of self h examples)) Hshape)
    as (loss & d_scores & Hloss & Hlen & Hrows & Hsum).
  exists loss, d_scores. split; [done|]. split; [done|]. split; [|done].
  intros i s r Hs Hr. by rewrite (Hrows i s _ Hs (to_float32_row _ _ _ Hr)).
Qed.

(** Scores of one half and one against the rows (1,0), (0,0): the loss is
    0 + 0.25 + 0.25 + 1 = 1.5. *)
Lemma loss_is_summed_squared_difference_witness :
  ∃ loss d_scores,
    get_loss (finder 0 0) heap2 [mkExample 0 1]
      [(F32.one, F32.half); (F32.half, F32.one)] = Returned (loss, d_scores)
    ∧ length d_scores = length [(F32.one, F32.half); (F32.half, F32.one)]
    ∧ (∀ (i : nat) s r,
         [(F32.one, F32.half); (F32.half, F32.one)] !! i = Some s →
         reference_of (finder 0 0) heap2 [mkExample 0 1] !! i = Some r →
         d_scores !! i
         = Some (SFsub 24 128 s.1 (binary_normalize 24 128 r.1 0 false),
                 SFsub 24 128 s.2 (binary_normalize 24 128 r.2 0 false)))
    ∧ loss = np_sum (SFadd 24 128) (S754_zero false)
               (d_scores ≫= λ d, [SFmul 24 128 d.1 d.1; SFmul 24 128 d.2 d.2]).
Proof.
  apply (proj1 (proj2 loss_is_summed_squared_difference)).
  vm_compute. reflexivity.
Defined.

Example loss_half :
  get_loss (finder 0 0) heap2 [mkExample 0 1]
    [(F32.one, F32.half); (F32.half, F32.one)]
  = Returned (S754_finite false 12582912 (-23),
              [(F32.zero, F32.half); (F32.half, F32.one)]).
Proof. vm_compute. reflexivity. Qed.

(** Four tokens, eight entries: the eight squares are added in pairs, which
    here gives another last bit than adding them one after the other. *)
Example loss_of_eight_entries :
  get_loss (finder 0 0) heap4 [mkExample 0 0] scores_tenths
  = Returned (S754_finite false 8975811 (-21), scores_tenths)
  ∧ foldl F32.add F32.zero (square <$> entries scores_tenths)
    = S754_finite false 8975810 (-21).
Proof. split; vm_compute; reflexivity. Qed.

(** C8, as stated, fails: a score matrix of one row against the five reference
    rows of [gold_doc] is broadcast, and [get_loss] returns a loss and a
    gradient of five rows. *)
Lemma single_row_is_broadcast :
  length [(F32.half, F32.half)] ≠ length (reference_of (finder 0 0) heap_gold [mkExample 0 1])
  ∧ get_loss (finder 0 0) heap_gold [mkExample 0 1] [(F32.half, F32.half)]
    = Returned
        (S754_finite false 10485760 (-22),
         [(F32.half, F32.half);
          (S754_finite true 8388608 (-24), F32.half);
          (F32.half, S754_finite true 8388608 (-24));
          (F32.half, F32.half);
          (F32.half, F32.half)]).
Proof. split; [vm_compute; lia | vm_compute; reflexivity]. Qed.

(** C8, amended: with different row counts [get_loss] raises exactly when the
    reference has no row or neither matrix has exactly one row, and what it
    raises is the shape error of the subtraction; when the scores have exactly
    one row and the reference is not empty, [get_loss] returns, and the
    gradient has one row per reference row, the score row minus that row; when
    the reference has exactly one row, [get_loss] returns, and the gradient
    has one row per score row, that row minus the reference row; the loss is
    the sum of the squares of the entries of this gradient. *)
Theorem row_count_mismatch (self : SpanFinder) (h : Heap)
  (examples : list Example) (scores : Floats2d) :
  length scores ≠ length (reference_of self h examples) →
  ((∃ e, get_loss self h examples scores = Raised e)
   ↔ length (reference_of self h examples) = 0%nat
     ∨ (length scores ≠ 1%nat ∧ length (reference_of self h examples) ≠ 1%nat))
  ∧ (length (reference_of self h examples) = 0%nat
     ∨ (length scores ≠ 1%nat ∧ length (reference_of self h examples) ≠ 1%nat) →
     get_loss self h examples scores = Raised ValueError)
  ∧ (∀ a, scores = [a] → reference_of self h examples ≠ [] →
       ∃ loss d_scores,
         get_loss self h examples scores = Returned (loss, d_scores)
         ∧ length d_scores = length (reference_of self h examples)
         ∧ (∀ (i : nat) r,
              reference_of self h examples !! i = Some r →
              d_scores !! i
              = Some (SFsub 24 128 a.1 (binary_normalize 24 128 r.1 0 false),
                      SFsub 24 128 a.2 (binary_normalize 24 128 r.2 0 false)))
         ∧ loss = np_sum (SFadd 24 128) (S754_zero false)
                    (d_scores ≫= λ d, [SFmul 24 128 d.1 d.1; SFmul 24 128 d.2 d.2]))
  ∧ (∀ b, reference_of self h examples = [b] →
       ∃ loss d_scores,
         get_loss self h examples scores = Returned (loss, d_scores)
         ∧ length d_scores = length scores
         ∧ (∀ (i : nat) s,
              scores !! i = Some s →
              d_scores !! i
              = Some (SFsub 24 128 s.1 (binary_normalize 24 128 b.1 0 false),
                      SFsub 24 128 s.2 (binary_normalize 24 128 b.2 0 false)))
         ∧ loss = np_sum (SFadd 24 128) (S754_zero false)
                    (d_scores ≫= λ d, [SFmul 24 128 d.1 d.1; SFmul 24 128 d.2 d.2])).
Proof.
  intros Hne. unfold get_loss.
  assert (∀ a, scores = [a] → reference_of self h examples ≠ [] →
    ∃ loss d_scores,
      loss_of scores (asarray (reference_of self h examples))
        = Returned (loss, d_scores)
      ∧ length d_scores = length (reference_of self h examples)
      ∧ (∀ (i : nat) r,
           reference_of self h examples !! i = Some r →
           d_scores !! i
           = Some (SFsub 24 128 a.1 (binary_normalize 24 128 r.1 0 false),
                   SFsub 24 128 a.2 (binary_normalize 24 128 r.2 0 false)))
      ∧ loss = np_sum (SFadd 24 128) (S754_zero false)
                 (d_scores ≫= λ d, [SFmul 24 128 d.1 d.1; SFmul 24 128 d.2 d.2]))
    as Hone.
  { intros a -> Hrows.
    destruct (asarray_cases (reference_of self h examples))
      as [[Hnil _] | [_ ->]]; [done|].
    eexists _, _. split; [by apply loss_of_returned, subtract_broadcast_scores|].
    split; [by rewrite length_fmap, to_float32_length|]. split; [|done].
    intros i r Hr. rewrite list_lookup_fmap, (to_float32_row _ _ _ Hr). done. }
  assert (∀ b, reference_of self h examples = [b] →
    ∃ loss d_scores,
      loss_of scores (asarray (reference_of self h examples))
        = Returned (loss, d_scores)
      ∧ length d_scores = length scores
      ∧ (∀ (i : nat) s,
           scores !! i = Some s →
           d_scores !! i
           = Some (SFsub 24 128 s.1 (binary_normalize 24 128 b.1 0 false),
                   SFsub 24 128 s.2 (binary_normalize 24 128 b.2 0 false)))
      ∧ loss = np_sum (SFadd 24 128) (S754_zero false)
                 (d_scores ≫= λ d, [SFmul 24 128 d.1 d.1; SFmul 24 128 d.2 d.2]))
    as Hrow.
  { intros b Hb. rewrite Hb in Hne |- *. simpl in Hne. simpl asarray.
    eexists _, _.
    split; [by apply loss_of_returned, subtract_broadcast_reference|].
    split; [by rewrite length_fmap|]. split; [|done].
    intros i s Hs. rewrite list_lookup_fmap, Hs. done. }
  assert (length (reference_of self h examples) = 0%nat
          ∨ (length scores ≠ 1%nat
             ∧ length (reference_of self h examples) ≠ 1%nat) →
          loss_of scores (asarray (reference_of self h examples))
          = Raised ValueError) as Hraise.
  { intros Hcond.
    destruct (asarray_cases (reference_of self h examples))
      as [[Hnil ->] | [Hnil ->]]; [done|].
    apply loss_of_raised, subtract_mismatch; rewrite ?to_float32_length;
      destruct Hcond as [Hz | [? ?]]; try done;
      by destruct (reference_of self h examples). }
  split; [|split; [exact Hraise | split; [exact Hone | exact Hrow]]].
  split; [|intros Hcond; exists ValueError; by apply Hraise].
  intros [e He].
  destruct (decide (length (reference_of self h examples) = 0%nat))
    as [Hz|Hz]; [by left|].
  right. split.
  - intros Hs. destruct scores as [|a [|a' scores]]; try done.
    destruct (Hone a eq_refl) as (loss & d & Hret & _);
      [by destruct (reference_of self h examples) | congruence].
  - intros Hr.
    destruct (reference_of self h examples) as [|b [|b' rows]] eqn:Hrows;
      try done.
    destruct (Hrow b eq_refl) as (loss & d & Hret & _). congruence.
Qed.

Lemma row_count_mismatch_witness :
  get_loss (finder 0 0) heap_gold [mkExample 0 1] (zeros 3) = Raised ValueError.
Proof.
  destruct (row_count_mismatch (finder 0 0) heap_gold [mkExample 0 1] (zeros 3))
    as (_ & Hraise & _).
  - vm_compute. lia.
  - apply Hraise. right. vm_compute. split; lia.
Defined.

(** ** Scoring *)

Section ScoreAligner.
Variables candidates_key reference_key : string.

Lemma store_group_same group d (h : Heap) d' :
  same_but candidates_key (store_group candidates_key group d h d') (h d').
Proof.
  unfold store_group. destruct (decide (d = d')) as [->|Hd].
  - rewrite fn_lookup_insert. split; [done|].
    intros k Hk. simpl. by apply lookup_insert_ne.
  - rewrite fn_lookup_insert_ne by done. by split.
Qed.

Lemma store_group_other group d (h : Heap) d' :
  d ≠ d' → store_group candidates_key group d h d' = h d'.
Proof. intros Hd. unfold store_group. by rewrite fn_lookup_insert_ne. Qed.

(** Storing back the group a document had gives the document back. *)
Lemma store_group_restores group d (h h0 : Heap) :
  same_but candidates_key (h d) (h0 d) →
  spans (h0 d) !! candidates_key = Some group →
  store_group candidates_key group d h d = h0 d.
Proof.
  intros [Hlen Hspans] Hgroup. unfold store_group, set_spans.
  rewrite fn_lookup_insert. destruct (h0 d) as [n m] eqn:Hdoc.
  simpl in *. f_equal; [done|]. apply map_eq. intros k.
  destruct (decide (k = candidates_key)) as [->|Hk].
  - by rewrite lookup_insert_eq.
  - rewrite lookup_insert_ne by done. by apply Hspans.
Qed.

Lemma copy_reference_same (h : Heap) eg d :
  same_but candidates_key
    (copy_reference candidates_key reference_key h eg d) (h d).
Proof.
  unfold copy_reference. destruct (spans _ !! reference_key).
  - apply store_group_same.
  - by split.
Qed.

Lemma copy_reference_other (h : Heap) eg d :
  reference eg ≠ d ∨ spans (h d) !! reference_key = None →
  copy_reference candidates_key reference_key h eg d = h d.
Proof.
  intros Hd. unfold copy_reference.
  destruct (spans (h (reference eg)) !! reference_key) eqn:Hg; [|done].
  apply store_group_other. intros Heq. rewrite Heq in Hg.
  destruct Hd; congruence.
Qed.

Lemma copy_fold_heap examples acc (h : Heap) :
  (foldl (copy_step candidates_key reference_key) (acc, h) examples).2
  = foldl (copy_reference candidates_key reference_key) h examples.
Proof.
  revert acc h. induction examples as [|eg examples IH]; intros acc h; [done|].
  simpl. unfold copy_step at 2. simpl. apply IH.
Qed.

Lemma copy_fold_same examples (h : Heap) d :
  same_but candidates_key
    (foldl (copy_reference candidates_key reference_key) h examples d) (h d).
Proof.
  revert h. induction examples as [|eg examples IH]; intros h; [by split|].
  simpl. eapply same_but_trans; [apply IH | apply copy_reference_same].
Qed.

Lemma copy_fold_other examples (h : Heap) d :
  d ∉ reference <$> examples ∨ spans (h d) !! reference_key = None →
  foldl (copy_reference candidates_key reference_key) h examples d = h d.
Proof.
  revert h. induction examples as [|eg examples IH]; intros h Hd; [done|].
  simpl. rewrite fmap_cons, not_elem_of_cons in Hd.
  assert (copy_reference candidates_key reference_key h eg d = h d) as Heq.
  { apply copy_reference_other. destruct Hd as [[Hne _]|Hnone]; auto. }
  rewrite IH; [done|]. rewrite Heq. destruct Hd as [[_ Hd]|Hd]; auto.
Qed.

Lemma copy_fold_origs examples acc (h : Heap) :
  NoDup (reference <$> examples) →
  (foldl (copy_step candidates_key reference_key) (acc, h) examples).1
  = acc ++ origs_of candidates_key h examples.
Proof.
  revert acc h. induction examples as [|eg examples IH]; intros acc h Hnd.
  - simpl. by rewrite app_nil_r.
  - rewrite fmap_cons in Hnd. apply NoDup_cons in Hnd as [Hfresh Hnd].
    simpl. unfold copy_step at 2. simpl. rewrite IH by done.
    rewrite <- app_assoc. f_equal. simpl. f_equal.
    unfold origs_of. apply list_fmap_ext. intros i eg' Heg'.
    rewrite copy_reference_other; [done|]. left. intros Heq.
    apply Hfresh. rewrite Heq. apply list_elem_of_fmap_2.
    by eapply list_elem_of_lookup_2.
Qed.

Lemma zip_origs (h : Heap) examples :
  zip (origs_of candidates_key h examples) examples
  = (λ eg, (spans (h (reference eg)) !! candidates_key, eg)) <$> examples.
Proof.
  unfold origs_of. induction examples as [|eg examples IH]; [done|].
  simpl. f_equal. exact IH.
Qed.

(** The second loop, run on the groups read from [h0], over a heap whose
    documents differ from those of [h0] at most under the candidates key. *)
Lemma restore_fold_same (h0 : Heap) examples (h : Heap) d :
  same_but candidates_key (h d) (h0 d) →
  same_but candidates_key
    (foldl (restore_step candidates_key) h
       ((λ eg, (spans (h0 (reference eg)) !! candidates_key, eg)) <$> examples)
       d) (h0 d).
Proof.
  revert h. induction examples as [|eg examples IH]; intros h Hsame; [done|].
  rewrite fmap_cons. simpl. apply IH. unfold restore_step. simpl.
  destruct (spans (h0 (reference eg)) !! candidates_key); [|done].
  eapply same_but_trans; [apply store_group_same | done].
Qed.

Lemma restore_fold_other (h0 : Heap) examples (h : Heap) d :
  d ∉ reference <$> examples ∨ spans (h0 d) !! candidates_key = None →
  foldl (restore_step candidates_key) h
    ((λ eg, (spans (h0 (reference eg)) !! candidates_key, eg)) <$> examples) d
  = h d.
Proof.
  revert h. induction examples as [|eg examples IH]; intros h Hd; [done|].
  rewrite fmap_cons. simpl. rewrite fmap_cons, not_elem_of_cons in Hd.
  rewrite IH by (destruct Hd as [[_ Hd]|Hd]; auto).
  unfold restore_step. simpl.
  destruct (spans (h0 (reference eg)) !! candidates_key) eqn:Hg; [|done].
  apply store_group_other. intros Heq. rewrite Heq in Hg.
  destruct Hd as [[Hne _]|Hd]; congruence.
Qed.

Lemma restore_fold_restores (h0 : Heap) examples (h : Heap) d :
  (∀ d', same_but candidates_key (h d') (h0 d')) →
  d ∈ reference <$> examples →
  is_Some (spans (h0 d) !! candidates_key) →
  foldl (restore_step candidates_key) h
    ((λ eg, (spans (h0 (reference eg)) !! candidates_key, eg)) <$> examples) d
  = h0 d.
Proof.
  intros Hsame Hin [group Hgroup]. revert h Hsame Hin.
  induction examples as [|eg examples IH]; intros h Hsame Hin.
  { by apply elem_of_nil in Hin. }
  rewrite fmap_cons. simpl.
  assert (∀ d', same_but candidates_key
            (restore_step candidates_key h
               (spans (h0 (reference eg)) !! candidates_key, eg) d') (h0 d'))
    as Hsame'.
  { intros d'. unfold restore_step. simpl.
    destruct (spans (h0 (reference eg)) !! candidates_key); [|done].
    eapply same_but_trans; [apply store_group_same | done]. }
  destruct (decide (d ∈ reference <$> examples)) as [Hrest|Hrest].
  { by apply IH. }
  rewrite restore_fold_other by auto.
  rewrite fmap_cons in Hin. apply elem_of_cons in Hin as [->|Hin]; [|done].
  unfold restore_step. simpl. rewrite Hgroup.
  by apply store_group_restores.
Qed.
End ScoreAligner.

(** C1, as stated, fails: when the scorer raises, the reference document keeps
    the copy of its gold group under the candidates key instead of the group it
    had there. *)
Lemma no_restore_when_scorer_raises :
  (span_finder_score raising_scorer [mkExample 0 1]
     DEFAULT_CANDIDATES_KEY DEFAULT_REFERENCE_KEY no_kwargs scored_heap).1
  = Raised ScorerError
  ∧ spans (scored_heap 1%nat) !! DEFAULT_CANDIDATES_KEY = Some [mkSpan 1 3]
  ∧ spans ((span_finder_score raising_scorer [mkExample 0 1]
              DEFAULT_CANDIDATES_KEY DEFAULT_REFERENCE_KEY no_kwargs
              scored_heap).2 1%nat) !! DEFAULT_CANDIDATES_KEY
    = Some [mkSpan 0 2]
  ∧ (span_finder_score raising_scorer [mkExample 0 1]
       DEFAULT_CANDIDATES_KEY DEFAULT_REFERENCE_KEY no_kwargs scored_heap).2 1%nat
    ≠ scored_heap 1%nat.
Proof.
  repeat split; try (vm_compute; reflexivity).
  intros Heq. apply (f_equal (λ doc, spans doc !! DEFAULT_CANDIDATES_KEY)) in Heq.
  vm_compute in Heq. discriminate Heq.
Qed.

(** When the scorer returns and the reference document had no group under the
    candidates key, the copy stays as well. *)
Example copy_stays_without_original :
  (span_finder_score counting_scorer [mkExample 0 1]
     DEFAULT_CANDIDATES_KEY DEFAULT_REFERENCE_KEY no_kwargs gold_only_heap).1
  = Returned 1%nat
  ∧ spans (gold_only_heap 1%nat) !! DEFAULT_CANDIDATES_KEY = None
  ∧ spans ((span_finder_score counting_scorer [mkExample 0 1]
              DEFAULT_CANDIDATES_KEY DEFAULT_REFERENCE_KEY no_kwargs
              gold_only_heap).2 1%nat) !! DEFAULT_CANDIDATES_KEY
    = Some [mkSpan 0 2].
Proof. repeat split; vm_compute; reflexivity. Qed.

(** The same reference document in two examples is not restored either: the
    second example saves the copy made for the first. *)
Example shared_reference_not_restored :
  spans ((span_finder_score counting_scorer [mkExample 0 1; mkExample 2 1]
            DEFAULT_CANDIDATES_KEY DEFAULT_REFERENCE_KEY no_kwargs
            scored_heap).2 1%nat) !! DEFAULT_CANDIDATES_KEY
  = Some [mkSpan 0 2].
Proof. vm_compute. reflexivity. Qed.

(** C1, amended: when the scorer returns and no reference document occurs in
    two examples, every document that had a group under the candidates key, or
    has none under the reference key, or is the reference of no example, is
    after the call exactly what it was before. *)
Theorem restore_after_scoring {Scores : Type}
  (score_spans : Heap → list Example → Kwargs → Outcome Scores)
  (examples : list Example) (candidates_key reference_key : string)
  (kwargs : Kwargs) (h : Heap) (scores : Scores) (h' : Heap) (d : DocId) :
  NoDup (reference <$> examples) →
  span_finder_score score_spans examples candidates_key reference_key kwargs h
    = (Returned scores, h') →
  is_Some (spans (h d) !! candidates_key)
  ∨ spans (h d) !! reference_key = None
  ∨ d ∉ reference <$> examples →
  h' d = h d.
Proof.
  intros Hnd Hrun Hd. unfold span_finder_score in Hrun.
  pose proof (copy_fold_origs candidates_key reference_key examples [] h Hnd)
    as Horigs.
  pose proof (copy_fold_heap candidates_key reference_key examples [] h)
    as Hheap.
  destruct (foldl (copy_step candidates_key reference_key) ([], h) examples)
    as [orig_span_groups h1].
  simpl in Horigs, Hheap. subst orig_span_groups h1.
  destruct (score_spans _ _ _) as [scores'|e]; [|done].
  injection Hrun as _ <-. rewrite zip_origs.
  destruct (decide (d ∈ reference <$> examples)) as [Hin|Hin].
  - destruct (spans (h d) !! candidates_key) as [group|] eqn:Hgroup.
    + apply restore_fold_restores; [|done|by rewrite Hgroup].
      intros d'. apply copy_fold_same.
    + destruct Hd as [[? [=]] | [Hnone | Hout]]; [|done].
      rewrite restore_fold_other by auto. apply copy_fold_other. auto.
  - rewrite restore_fold_other by auto. apply copy_fold_other. auto.
Qed.

Lemma restore_after_scoring_witness :
  (span_finder_score counting_scorer [mkExample 0 1]
     DEFAULT_CANDIDATES_KEY DEFAULT_REFERENCE_KEY no_kwargs scored_heap).2 1%nat
  = scored_heap 1%nat.
Proof.
  apply (restore_after_scoring counting_scorer [mkExample 0 1]
           DEFAULT_CANDIDATES_KEY DEFAULT_REFERENCE_KEY no_kwargs scored_heap
           1%nat).
  - apply NoDup_singleton.
  - reflexivity.
  - left. vm_compute. eexists. reflexivity.
Defined.

(** * Further properties *)

(** ** Thresholding: which tokens become starts and ends *)

(** The comparison does not depend on how the two numbers are written: any
    exponent below both serves to line the mantissas up. *)
Lemma float_compare_scale (x y : float) (e : Z) :
  x ≠ S754_nan → y ≠ S754_nan →
  (∀ s, x ≠ S754_infinity s) → (∀ s, y ≠ S754_infinity s) →
  e ≤ exponent x → e ≤ exponent y →
  float_compare x y
  = Some (Z.compare (mantissa x * 2 ^ (exponent x - e))
                    (mantissa y * 2 ^ (exponent y - e))).
Proof.
  intros Hx Hy Hix Hiy Hex Hey.
  assert (float_compare x y
          = Some (Z.compare
                    (mantissa x * 2 ^ (exponent x - Z.min (exponent x) (exponent y)))
                    (mantissa y * 2 ^ (exponent y - Z.min (exponent x) (exponent y)))))
    as ->.
  { destruct x as [sx|sx| |sx mx ex], y as [sy|sy| |sy my ey]; try done;
      try (by destruct (Hix sx)); by destruct (Hiy sy). }
  f_equal. set (e0 := Z.min (exponent x) (exponent y)).
  replace (exponent x - e) with ((exponent x - e0) + (e0 - e)) by lia.
  replace (exponent y - e) with ((exponent y - e0) + (e0 - e)) by lia.
  rewrite !Z.pow_add_r, !Z.mul_assoc by lia.
  apply Zmult_compare_compat_r.
  apply Z.lt_gt, Z.pow_pos_nonneg; lia.
Qed.

(** A score is compared with the threshold as a number, across the two
    formats: 0.25 does not reach 0.5, 1.0 does not reach 2.0, the binary32
    value nearest to 0.7 does not reach the binary64 one, -0.25 reaches -0.5,
    and 0.5 reaches 0.5. *)
Example float_geb_across_formats :
  float_geb quarter32 half64 = false
  ∧ float_geb F32.one two64 = false
  ∧ float_geb seven_tenths32 seven_tenths64 = false
  ∧ float_geb (SFopp quarter32) (SFopp half64) = true
  ∧ float_geb F32.half half64 = true
  ∧ float_geb half64 F32.half = true.
Proof. repeat split; vm_compute; reflexivity. Qed.

Example scan_across_formats :
  scan_tokens half64 [0; 1] [(quarter32, seven_tenths32); (F32.half, quarter32)]
  = ([1], [0]).
Proof. vm_compute. reflexivity. Qed.

Lemma zip_tokens_lookup (n : nat) (doc_scores : Floats2d) i sc :
  (i, sc) ∈ zip (seqZ 0 (Z.of_nat n)) doc_scores
  ↔ ∃ k : nat, i = Z.of_nat k ∧ (k < n)%nat ∧ doc_scores !! k = Some sc.
Proof.
  rewrite list_elem_of_lookup. split.
  - intros [k Hk]. exists k.
    apply lookup_zip_with_Some in Hk as (i' & sc' & [= <- <-] & Hi & Hsc).
    apply lookup_seqZ in Hi as [-> ?]. split; [lia|]. split; [lia | done].
  - intros (k & -> & Hk & Hsc). exists k.
    apply lookup_zip_with_Some. exists (Z.of_nat k), sc.
    split; [done|]. split; [|done]. apply lookup_seqZ. lia.
Qed.

Lemma scan_members (thr : float) (doc : Doc) (doc_scores : Floats2d) (i : Z) :
  (i ∈ (scan_tokens thr (tokens doc) doc_scores).1
   ↔ start_token thr doc doc_scores i)
  ∧ (i ∈ (scan_tokens thr (tokens doc) doc_scores).2
     ↔ end_token thr doc doc_scores i).
Proof.
  rewrite scan_tokens_filter. unfold tokens, start_token, end_token. simpl.
  split; rewrite list_elem_of_fmap; split.
  - intros ([i' sc] & -> & [Hp Hin]%list_elem_of_filter).
    apply zip_tokens_lookup in Hin as (k & -> & Hk & Hsc). by exists k, sc.
  - intros (k & sc & -> & Hk & Hsc & Hp). exists (Z.of_nat k, sc).
    split; [done|]. apply list_elem_of_filter. split; [done|].
    apply zip_tokens_lookup. by exists k.
  - intros ([i' sc] & -> & [Hp Hin]%list_elem_of_filter).
    apply zip_tokens_lookup in Hin as (k & -> & Hk & Hsc). by exists k, sc.
  - intros (k & sc & -> & Hk & Hsc & Hp). exists (Z.of_nat k, sc).
    split; [done|]. apply list_elem_of_filter. split; [done|].
    apply zip_tokens_lookup. by exists k.
Qed.

(** X1: a token index is collected as a start exactly when the token has a row
    in the slice and its first score reaches the threshold; likewise for the
    ends and the second score. *)
Theorem scan_tokens_spec (thr : float) (doc : Doc) (doc_scores : Floats2d) (i : Z) :
  (i ∈ (scan_tokens thr (tokens doc) doc_scores).1
   ↔ start_token thr doc doc_scores i)
  ∧ (i ∈ (scan_tokens thr (tokens doc) doc_scores).2
     ↔ end_token thr doc doc_scores i).
Proof. exact (scan_members thr doc doc_scores i). Qed.

Lemma fst_zip_take {A B} (l : list A) (k : list B) :
  (zip l k).*1 = take (length k) l.
Proof.
  revert k. induction l as [|x l IH]; intros [|y k]; simpl; try done.
  f_equal. apply IH.
Qed.

Lemma seqZ_strictly_sorted m n : StronglySorted Z.lt (seqZ m n).
Proof.
  destruct (decide (0 ≤ n)) as [Hn|Hn].
  - revert m. pattern n. apply natlike_ind; [| |done].
    + intros m. rewrite seqZ_nil by lia. constructor.
    + intros n' Hn' IH m. rewrite seqZ_cons by lia. constructor.
      * replace (Z.pred (Z.succ n')) with n' by lia. apply IH.
      * apply Forall_forall. intros x Hx. apply elem_of_seqZ in Hx. lia.
  - rewrite seqZ_nil by lia. constructor.
Qed.

Lemma StronglySorted_sublist {A} (R : relation A) (l k : list A) :
  l `sublist_of` k → StronglySorted R k → StronglySorted R l.
Proof.
  induction 1 as [|x l k Hsub IH|x l k Hsub IH]; intros Hk; [done| |].
  - apply StronglySorted_inv in Hk as [Hk Hall]. constructor; [by apply IH|].
    eapply Forall_forall. intros y Hy. rewrite Forall_forall in Hall.
    apply Hall. by eapply elem_of_sublist.
  - apply StronglySorted_inv in Hk as [Hk _]. by apply IH.
Qed.

Lemma filter_fst_strictly_sorted {B} (P : Z * B → Prop)
  `{!∀ x, Decision (P x)} (l : list (Z * B)) :
  StronglySorted Z.lt l.*1 → StronglySorted Z.lt (filter P l).*1.
Proof.
  apply StronglySorted_sublist. apply fmap_sublist, sublist_filter.
Qed.

Lemma scan_sorted (thr : float) (doc : Doc) (doc_scores : Floats2d) :
  StronglySorted Z.lt (scan_tokens thr (tokens doc) doc_scores).1
  ∧ StronglySorted Z.lt (scan_tokens thr (tokens doc) doc_scores).2.
Proof.
  rewrite scan_tokens_filter. simpl.
  assert (StronglySorted Z.lt (zip (tokens doc) doc_scores).*1) as Hzip.
  { rewrite fst_zip_take. eapply StronglySorted_sublist; [apply sublist_take|].
    apply seqZ_strictly_sorted. }
  split; by apply filter_fst_strictly_sorted.
Qed.

(** X2: the starts and the ends are strictly ascending lists, so the inner
    loop always meets the ends in ascending order. *)
Theorem scan_tokens_ascending (thr : float) (doc : Doc) (doc_scores : Floats2d) :
  StronglySorted Z.lt (scan_tokens thr (tokens doc) doc_scores).1
  ∧ StronglySorted Z.lt (scan_tokens thr (tokens doc) doc_scores).2.
Proof. exact (scan_sorted thr doc doc_scores). Qed.

(** ** The candidate loop on ascending ends *)

Lemma strictly_sorted_le (l : list Z) :
  StronglySorted Z.lt l → StronglySorted Z.le l.
Proof.
  induction 1 as [|x l Hl IH Hall]; constructor; [done|].
  eapply Forall_impl; [exact Hall|]. intros y Hy. simpl in Hy. lia.
Qed.

Section AscendingEnds.
Variable self : SpanFinder.

Lemma ends_loop_complete s ends e :
  StronglySorted Z.le ends → e ∈ ends →
  0 < e + 1 - s → length_ok self (e + 1 - s) = true →
  mkSpan s (e + 1) ∈ ends_loop self s ends [].
Proof.
  induction 1 as [|e0 ends Hsorted IH Hall]; intros Hin Hpos Hok.
  { by apply elem_of_nil in Hin. }
  simpl. apply elem_of_cons in Hin as [->|Hin].
  - apply Z.ltb_lt in Hpos. rewrite Hpos, Hok, ends_loop_app.
    apply elem_of_app. left. apply list_elem_of_here.
  - destruct (0 <? e0 + 1 - s) eqn:Hpos0; [|by apply IH].
    destruct (length_ok self (e0 + 1 - s)) eqn:Hok0.
    + rewrite ends_loop_app. apply elem_of_app. right. by apply IH.
    + destruct (_ && _) eqn:Hbreak; [|by apply IH].
      rewrite Forall_forall in Hall. specialize (Hall e Hin).
      unfold length_ok in Hok. lia.
Qed.

Lemma ends_loop_elem s ends span :
  StronglySorted Z.le ends →
  span ∈ ends_loop self s ends [] ↔ emitted_from self [s] ends span.
Proof.
  intros Hsorted. split.
  - intros Hin. eapply Forall_forall in Hin; [exact Hin|].
    apply ends_loop_emitted.
  - destruct span as [s' e']. intros (Hs & He & Hpos & Hok). simpl in *.
    apply list_elem_of_singleton in Hs as ->.
    replace e' with (e' - 1 + 1) by lia.
    apply ends_loop_complete; try done; [lia|].
    by replace (e' - 1 + 1 - s) with (e' - s) by lia.
Qed.

Lemma starts_loop_elem starts ends span :
  StronglySorted Z.le ends →
  span ∈ starts_loop self starts ends [] ↔ emitted_from self starts ends span.
Proof.
  intros Hsorted. induction starts as [|s starts IH].
  - split; [by intros []%elem_of_nil|]. by intros ([]%elem_of_nil & _).
  - rewrite starts_loop_unfold, elem_of_app, IH, ends_loop_elem by done.
    unfold emitted_from. rewrite list_elem_of_singleton, elem_of_cons.
    tauto.
Qed.

Lemma ends_loop_sorted s ends :
  StronglySorted Z.lt ends →
  StronglySorted span_lt (ends_loop self s ends []).
Proof.
  induction 1 as [|e ends Hsorted IH Hall]; simpl; [constructor|].
  destruct (0 <? e + 1 - s); [|done].
  destruct (length_ok self (e + 1 - s)).
  - rewrite ends_loop_app. simpl. constructor; [done|].
    eapply Forall_impl; [apply ends_loop_emitted|].
    intros span (Hs & He & _). simpl.
    apply list_elem_of_singleton in Hs. rewrite Forall_forall in Hall.
    specialize (Hall _ He). right. simpl. lia.
  - destruct (_ && _); [constructor | done].
Qed.

Lemma starts_loop_sorted starts ends :
  StronglySorted Z.lt starts → StronglySorted Z.lt ends →
  StronglySorted span_lt (starts_loop self starts ends []).
Proof.
  intros Hstarts Hends.
  induction Hstarts as [|s starts Hsorted IH Hall]; [constructor|].
  rewrite starts_loop_unfold. apply StronglySorted_app_2.
  - intros a b Ha Hb.
    eapply Forall_forall in Ha; [|apply ends_loop_emitted].
    eapply Forall_forall in Hb; [|apply starts_loop_emitted].
    destruct Ha as (Ha & _), Hb as (Hb & _).
    apply list_elem_of_singleton in Ha. rewrite Forall_forall in Hall.
    specialize (Hall _ Hb). left. lia.
  - by apply ends_loop_sorted.
  - exact IH.
Qed.
End AscendingEnds.

Lemma span_lt_irrefl span : ¬ span_lt span span.
Proof. unfold span_lt. lia. Qed.

Lemma strictly_sorted_NoDup (l : list Span) :
  StronglySorted span_lt l → NoDup l.
Proof.
  induction 1 as [|x l Hl IH Hall]; constructor; [|done].
  intros Hin. rewrite Forall_forall in Hall.
  by apply (span_lt_irrefl x), Hall.
Qed.

(** The group that [set_annotations] leaves on the document at its last place
    in the batch. *)
Lemma set_annotations_group self docs1 d docs2 scores (h : Heap) :
  d ∉ docs2 →
  spans (set_annotations self (docs1 ++ d :: docs2) scores h d)
    !! candidates_key self
  = Some (starts_loop self
            (scan_tokens (threshold self) (tokens (h d))
               (doc_slice h docs1 d scores)).1
            (scan_tokens (threshold self) (tokens (h d))
               (doc_slice h docs1 d scores)).2 []).
Proof.
  intros Hlast.
  by rewrite set_annotations_last, annotate_doc_spans, lookup_insert_eq.
Qed.

Lemma group_members (self : SpanFinder) (docs1 : list DocId) (d : DocId)
  (docs2 : list DocId) (scores : Floats2d) (h : Heap) :
  d ∉ docs2 →
  ∃ group,
    spans (set_annotations self (docs1 ++ d :: docs2) scores h d)
      !! candidates_key self = Some group
    ∧ ∀ span,
        span ∈ group
        ↔ start_token (threshold self) (h d) (doc_slice h docs1 d scores)
            (start span)
          ∧ end_token (threshold self) (h d) (doc_slice h docs1 d scores)
              (end_ span - 1)
          ∧ 0 < end_ span - start span
          ∧ length_ok self (end_ span - start span) = true.
Proof.
  intros Hlast. eexists. split; [by apply set_annotations_group|].
  intros span.
  pose proof (scan_sorted (threshold self) (h d)
                (doc_slice h docs1 d scores)) as [_ Hends].
  rewrite starts_loop_elem by (by apply strictly_sorted_le).
  unfold emitted_from.
  destruct (scan_members (threshold self) (h d)
              (doc_slice h docs1 d scores) (start span)) as [-> _].
  destruct (scan_members (threshold self) (h d)
              (doc_slice h docs1 d scores) (end_ span - 1)) as [_ ->].
  done.
Qed.

(** X3: the candidates of a document are exactly the spans whose first token
    reaches the start threshold, whose last token reaches the end threshold,
    and whose length is positive and passes the bounds: on the ascending ends
    of the scan, the [break] drops nothing. *)
Theorem candidates_spec (self : SpanFinder) (docs1 : list DocId) (d : DocId)
  (docs2 : list DocId) (scores : Floats2d) (h : Heap) :
  d ∉ docs2 →
  ∃ group,
    spans (set_annotations self (docs1 ++ d :: docs2) scores h d)
      !! candidates_key self = Some group
    ∧ ∀ span,
        span ∈ group
        ↔ start_token (threshold self) (h d) (doc_slice h docs1 d scores)
            (start span)
          ∧ end_token (threshold self) (h d) (doc_slice h docs1 d scores)
              (end_ span - 1)
          ∧ 0 < end_ span - start span
          ∧ length_ok self (end_ span - start span) = true.
Proof. exact (group_members self docs1 d docs2 scores h). Qed.

Lemma candidates_spec_witness :
  ∃ group,
    spans (set_annotations (finder 2 0) ([] ++ 0%nat :: []) scores4 heap4 0%nat)
      !! candidates_key (finder 2 0) = Some group
    ∧ ∀ span,
        span ∈ group
        ↔ start_token (threshold (finder 2 0)) (heap4 0%nat)
            (doc_slice heap4 [] 0%nat scores4) (start span)
          ∧ end_token (threshold (finder 2 0)) (heap4 0%nat)
              (doc_slice heap4 [] 0%nat scores4) (end_ span - 1)
          ∧ 0 < end_ span - start span
          ∧ length_ok (finder 2 0) (end_ span - start span) = true.
Proof.
  apply (candidates_spec (finder 2 0) [] 0%nat [] scores4 heap4).
  apply not_elem_of_nil.
Defined.

(** X4: the candidates of a document are stored in strictly ascending order of
    start and then of end; no span is stored twice. *)
Theorem candidates_sorted (self : SpanFinder) (docs : list DocId)
  (scores : Floats2d) (h : Heap) (d : DocId) (group : SpanGroup) :
  d ∈ docs →
  spans (set_annotations self docs scores h d) !! candidates_key self
    = Some group →
  StronglySorted span_lt group ∧ NoDup group.
Proof.
  intros Hd Hgroup.
  apply list_elem_of_split_r in Hd as (docs1 & docs2 & -> & Hlast).
  rewrite set_annotations_group in Hgroup by done. injection Hgroup as <-.
  pose proof (scan_sorted (threshold self) (h d)
                (doc_slice h docs1 d scores)) as [Hstarts Hends].
  assert (StronglySorted span_lt
            (starts_loop self
               (scan_tokens (threshold self) (tokens (h d))
                  (doc_slice h docs1 d scores)).1
               (scan_tokens (threshold self) (tokens (h d))
                  (doc_slice h docs1 d scores)).2 [])) as Hsorted
    by (by apply starts_loop_sorted).
  split; [done | by apply strictly_sorted_NoDup].
Qed.

Lemma candidates_sorted_witness :
  StronglySorted span_lt [mkSpan 0 2; mkSpan 0 4; mkSpan 2 4]
  ∧ NoDup [mkSpan 0 2; mkSpan 0 4; mkSpan 2 4].
Proof.
  apply (candidates_sorted (finder 0 0) [0%nat] scores4 heap4 0%nat).
  - apply list_elem_of_here.
  - vm_compute. reflexivity.
Defined.

(** X5: every candidate is a non-empty range of tokens of its document. *)
Theorem candidates_within_doc (self : SpanFinder) (docs : list DocId)
  (scores : Floats2d) (h : Heap) (d : DocId) (group : SpanGroup) (span : Span) :
  d ∈ docs →
  spans (set_annotations self docs scores h d) !! candidates_key self
    = Some group →
  span ∈ group →
  0 ≤ start span < end_ span ∧ end_ span ≤ Z.of_nat (doc_len (h d)).
Proof.
  intros Hd Hgroup Hspan.
  apply list_elem_of_split_r in Hd as (docs1 & docs2 & -> & Hlast).
  rewrite set_annotations_group in Hgroup by done. injection Hgroup as <-.
  eapply Forall_forall in Hspan; [|apply starts_loop_emitted].
  destruct Hspan as (Hs & He & Hpos & _).
  pose proof (scan_tokens_bound _ _ _ _ (or_introl Hs)).
  pose proof (scan_tokens_bound _ _ _ _ (or_intror He)). lia.
Qed.

Lemma candidates_within_doc_witness :
  0 ≤ 2 < 4 ∧ 4 ≤ Z.of_nat (doc_len (heap4 0%nat)).
Proof.
  apply (candidates_within_doc (finder 0 0) [0%nat] scores4 heap4 0%nat
           [mkSpan 0 2; mkSpan 0 4; mkSpan 2 4] (mkSpan 2 4)).
  - apply list_elem_of_here.
  - vm_compute. reflexivity.
  - do 2 apply list_elem_of_further. apply list_elem_of_here.
Defined.

(** ** What [set_annotations] leaves alone, and running it again *)

Lemma annotations_frame (self : SpanFinder) (docs : list DocId)
  (scores : Floats2d) (h : Heap) (d : DocId) :
  doc_len (set_annotations self docs scores h d) = doc_len (h d)
  ∧ (∀ key, key ≠ candidates_key self →
       spans (set_annotations self docs scores h d) !! key = spans (h d) !! key)
  ∧ (d ∉ docs → set_annotations self docs scores h d = h d).
Proof.
  destruct (annotate_all_same self
              (zip docs (split_scores scores 0 ((λ d, doc_len (h d)) <$> docs)))
              h d) as [Hlen Hspans].
  split; [exact Hlen|]. split; [exact Hspans|].
  apply set_annotations_other.
Qed.

(** X6: [set_annotations] changes nothing but the group under the candidates
    key: every document keeps its token count and its groups under the other
    keys, and a document outside the batch is not touched at all. *)
Theorem set_annotations_frame (self : SpanFinder) (docs : list DocId)
  (scores : Floats2d) (h : Heap) (d : DocId) :
  doc_len (set_annotations self docs scores h d) = doc_len (h d)
  ∧ (∀ key, key ≠ candidates_key self →
       spans (set_annotations self docs scores h d) !! key = spans (h d) !! key)
  ∧ (d ∉ docs → set_annotations self docs scores h d = h d).
Proof. exact (annotations_frame self docs scores h d). Qed.

Lemma sum_list_with_ext {A} (f g : A → nat) (l : list A) :
  (∀ x, f x = g x) → sum_list_with f l = sum_list_with g l.
Proof.
  intros Hfg. induction l as [|x l IH]; [done|]. simpl. by rewrite Hfg, IH.
Qed.

(** X7: running [set_annotations] a second time with the same batch and scores
    changes no document. *)
Theorem set_annotations_idempotent (self : SpanFinder) (docs : list DocId)
  (scores : Floats2d) (h : Heap) (d : DocId) :
  set_annotations self docs scores (set_annotations self docs scores h) d
  = set_annotations self docs scores h d.
Proof.
  destruct (decide (d ∈ docs)) as [Hd|Hd].
  - apply list_elem_of_split_r in Hd as (docs1 & docs2 & -> & Hlast).
    rewrite (set_annotations_last self docs1 d docs2 scores
               (set_annotations self (docs1 ++ d :: docs2) scores h)) by done.
    rewrite (set_annotations_last self docs1 d docs2 scores h) at 3 by done.
    rewrite (sum_list_with_ext
               (λ d0, doc_len (set_annotations self (docs1 ++ d :: docs2) scores h d0))
               (λ d0, doc_len (h d0)))
      by (intros x; apply annotations_frame).
    replace (doc_len (set_annotations self (docs1 ++ d :: docs2) scores h d))
      with (doc_len (h d)) by (symmetry; apply annotations_frame).
    apply annotate_doc_same_but. unfold set_annotations.
    apply annotate_all_same.
  - by rewrite !set_annotations_other.
Qed.

(** ** Slicing the score matrix *)

Lemma split_scores_concat (scores : Floats2d) offset lengths :
  concat (split_scores scores offset lengths)
  = take (sum_list lengths) (drop offset scores).
Proof.
  revert offset. induction lengths as [|n lengths IH]; intros offset; [done|].
  simpl. rewrite IH. unfold slice, id.
  rewrite <- (drop_drop scores n offset). apply take_take_drop.
Qed.

(** X8: the slices handed to the documents, put end to end, are the first rows
    of the matrix, as many as the batch has tokens; with one row per token they
    are the whole matrix. *)
Theorem split_scores_reassemble (scores : Floats2d) (lengths : list nat) :
  concat (split_scores scores 0 lengths) = take (sum_list lengths) scores
  ∧ (sum_list lengths = length scores →
     concat (split_scores scores 0 lengths) = scores).
Proof.
  rewrite split_scores_concat, drop_0. split; [done|].
  intros ->. apply firstn_all.
Qed.

(** ** Degenerate configurations *)

Lemma geb_nan_threshold x : float_geb x S754_nan = false.
Proof. by destruct x. Qed.

Lemma scan_tokens_nil_l thr toks doc_scores :
  (∀ x, float_geb x thr = false) →
  scan_tokens thr toks doc_scores = ([], []).
Proof.
  intros Hthr. rewrite scan_tokens_filter.
  assert (∀ P : Z * (float * float) → Prop, ∀ Hdec : ∀ x, Decision (P x),
            (∀ x, ¬ P x) → filter P (zip toks doc_scores) = []) as Hnone.
  { intros P Hdec HP. induction (zip toks doc_scores) as [|x l IH]; [done|].
    rewrite filter_cons. destruct (decide (P x)) as [Hx|_]; [|done].
    by apply HP in Hx. }
  rewrite !Hnone; [done| |]; intros x; unfold is_end, is_start;
    by rewrite Hthr.
Qed.

(** X9: with a NaN threshold no score compares as reaching it, and every
    document of the batch gets an empty group. *)
Theorem nan_threshold_no_candidates (self : SpanFinder) (docs : list DocId)
  (scores : Floats2d) (h : Heap) (d : DocId) :
  threshold self = S754_nan → d ∈ docs →
  spans (set_annotations self docs scores h d) !! candidates_key self = Some [].
Proof.
  intros Hnan Hd.
  apply list_elem_of_split_r in Hd as (docs1 & docs2 & -> & Hlast).
  rewrite set_annotations_group by done.
  rewrite scan_tokens_nil_l; [done|].
  intros x. rewrite Hnan. apply geb_nan_threshold.
Qed.

Lemma nan_threshold_no_candidates_witness :
  spans (set_annotations
           (mkSpanFinder S754_nan 0 0 DEFAULT_CANDIDATES_KEY DEFAULT_REFERENCE_KEY)
           [0%nat] scores4 heap4 0%nat) !! DEFAULT_CANDIDATES_KEY = Some [].
Proof.
  apply (nan_threshold_no_candidates
           (mkSpanFinder S754_nan 0 0 DEFAULT_CANDIDATES_KEY DEFAULT_REFERENCE_KEY)
           [0%nat] scores4 heap4 0%nat).
  - reflexivity.
  - apply list_elem_of_here.
Defined.

(** X10: when [max_length] is positive and below [min_length], no length
    passes both bounds, and every document of the batch gets an empty group. *)
Theorem contradictory_bounds_no_candidates (self : SpanFinder)
  (docs : list DocId) (scores : Floats2d) (h : Heap) (d : DocId) :
  0 < max_length self < min_length self → d ∈ docs →
  spans (set_annotations self docs scores h d) !! candidates_key self = Some [].
Proof.
  intros Hbounds Hd.
  apply list_elem_of_split_r in Hd as (docs1 & docs2 & -> & Hlast).
  rewrite set_annotations_group by done. f_equal.
  pose proof (starts_loop_emitted self
                (scan_tokens (threshold self) (tokens (h d))
                   (doc_slice h docs1 d scores)).1
                (scan_tokens (threshold self) (tokens (h d))
                   (doc_slice h docs1 d scores)).2) as Hall.
  destruct (starts_loop _ _ _ _) as [|span group]; [done|].
  apply Forall_cons in Hall as [(_ & _ & Hpos & Hok) _].
  unfold length_ok in Hok. lia.
Qed.

Lemma contradictory_bounds_no_candidates_witness :
  spans (set_annotations (finder 2 3) [0%nat] scores4 heap4 0%nat)
    !! candidates_key (finder 2 3) = Some [].
Proof.
  apply (contradictory_bounds_no_candidates (finder 2 3) [0%nat] scores4 heap4
           0%nat).
  - simpl. lia.
  - apply list_elem_of_here.
Defined.

(** ** Reference rows against the slicing of [set_annotations] *)

Lemma to_float32_app rows rows' :
  to_float32 (rows ++ rows') = to_float32 rows ++ to_float32 rows'.
Proof. unfold to_float32. apply fmap_app. Qed.

Lemma to_float32_lookup rows (k : nat) :
  to_float32 rows !! k
  = (λ r : Z * Z, (F32.of_Z r.1, F32.of_Z r.2)) <$> rows !! k.
Proof. unfold to_float32. apply list_lookup_fmap. Qed.

Lemma get_reference_app self docs docs' :
  _get_reference self (docs ++ docs')
  = _get_reference self docs ++ _get_reference self docs'.
Proof. unfold _get_reference. by rewrite fmap_app, concat_app. Qed.

Lemma get_reference_cons self doc docs :
  _get_reference self (doc :: docs)
  = doc_rows self doc ++ _get_reference self docs.
Proof. done. Qed.

Lemma offset_of_length self (h : Heap) docs :
  length (to_float32 (_get_reference self (h <$> docs))) = offset_of h docs.
Proof.
  rewrite to_float32_length, get_reference_length. unfold offset_of.
  induction docs as [|d docs IH]; [done|]. rewrite fmap_cons. simpl.
  by rewrite IH.
Qed.

Lemma slice_aligned (self : SpanFinder) (h : Heap)
  (docs1 : list DocId) (d : DocId) (docs2 : list DocId) :
  doc_slice h docs1 d (reference_matrix self h (docs1 ++ d :: docs2))
  = to_float32 (doc_rows self (h d)).
Proof.
  unfold doc_slice, slice, reference_matrix.
  rewrite fmap_app, fmap_cons, get_reference_app, get_reference_cons.
  rewrite !to_float32_app.
  rewrite drop_app_length' by (by rewrite offset_of_length).
  apply take_app_length'. by rewrite to_float32_length, doc_rows_length.
Qed.

(** X11: the reference matrix of a batch is aligned with the slicing of
    [set_annotations]: the slice that a document would receive from it holds
    exactly the rows built for that document. *)
Theorem reference_slice_aligned (self : SpanFinder) (h : Heap)
  (docs1 : list DocId) (d : DocId) (docs2 : list DocId) :
  doc_slice h docs1 d (reference_matrix self h (docs1 ++ d :: docs2))
  = to_float32 (doc_rows self (h d)).
Proof. exact (slice_aligned self h docs1 d docs2). Qed.

Lemma aligned_row self (h : Heap) docs1 d docs2 (k : nat) :
  (k < doc_len (h d))%nat →
  doc_slice h docs1 d (reference_matrix self h (docs1 ++ d :: docs2)) !! k
  = Some (F32.of_Z (if bool_decide (Z.of_nat k ∈ (reference_indices self (h d)).1)
                    then 1 else 0),
          F32.of_Z (if bool_decide (Z.of_nat k ∈ (reference_indices self (h d)).2)
                    then 1 else 0)).
Proof.
  intros Hk. rewrite slice_aligned, to_float32_lookup.
  by rewrite doc_rows_lookup.
Qed.

(** X12: scored with its own reference matrix, a batch gets back its gold
    spans: with a threshold of at most 1, every gold span that is a non-empty
    range of tokens of its document and passes the length bounds is among the
    candidates of that document. *)
Theorem gold_spans_recovered (self : SpanFinder) (h : Heap)
  (docs1 : list DocId) (d : DocId) (docs2 : list DocId)
  (gold : SpanGroup) (span : Span) :
  d ∉ docs2 →
  float_geb F32.one (threshold self) = true →
  spans (h d) !! reference_key self = Some gold → span ∈ gold →
  0 ≤ start span < end_ span → end_ span ≤ Z.of_nat (doc_len (h d)) →
  length_ok self (end_ span - start span) = true →
  ∃ group,
    spans (set_annotations self (docs1 ++ d :: docs2)
             (reference_matrix self h (docs1 ++ d :: docs2)) h d)
      !! candidates_key self = Some group
    ∧ span ∈ group.
Proof.
  intros Hlast Hthr Hgold Hspan Hrange Hend Hok.
  destruct (group_members self docs1 d docs2
              (reference_matrix self h (docs1 ++ d :: docs2)) h Hlast)
    as (group & Hgroup & Hiff).
  exists group. split; [done|]. apply Hiff.
  destruct (reference_indices_spec self (h d) (start span)) as [Hs _].
  destruct (reference_indices_spec self (h d) (end_ span - 1)) as [_ He].
  repeat split; [| |lia|done].
  - exists (Z.to_nat (start span)), (F32.one, F32.of_Z
      (if bool_decide (start span ∈ (reference_indices self (h d)).2)
       then 1 else 0)).
    split; [lia|]. split; [lia|]. split; [|done].
    rewrite aligned_row by lia. rewrite Z2Nat.id by lia.
    rewrite bool_decide_eq_true_2; [done|].
    apply Hs. by exists gold, span.
  - exists (Z.to_nat (end_ span - 1)), (F32.of_Z
      (if bool_decide (end_ span - 1 ∈ (reference_indices self (h d)).1)
       then 1 else 0), F32.one).
    split; [lia|]. split; [lia|]. split; [|done].
    rewrite aligned_row by lia. rewrite Z2Nat.id by lia.
    rewrite (bool_decide_eq_true_2 (_ ∈ (reference_indices self (h d)).2));
      [done|].
    apply He. by exists gold, span.
Qed.

Lemma gold_spans_recovered_witness :
  ∃ group,
    spans (set_annotations (finder 0 0) ([] ++ 0%nat :: [])
             (reference_matrix (finder 0 0) heap_gold ([] ++ 0%nat :: []))
             heap_gold 0%nat) !! candidates_key (finder 0 0) = Some group
    ∧ mkSpan 1 3 ∈ group.
Proof.
  apply (gold_spans_recovered (finder 0 0) heap_gold [] 0%nat []
           [mkSpan 1 3] (mkSpan 1 3)).
  - apply not_elem_of_nil.
  - vm_compute. reflexivity.
  - vm_compute. reflexivity.
  - apply list_elem_of_here.
  - simpl. lia.
  - vm_compute. discriminate.
  - vm_compute. reflexivity.
Defined.

(** X13: scored with its own reference matrix and a threshold above 0, a
    document gets only candidates that start where a gold span starts and end
    where a gold span ends. *)
Theorem candidates_on_gold_boundaries (self : SpanFinder) (h : Heap)
  (docs1 : list DocId) (d : DocId) (docs2 : list DocId)
  (group : SpanGroup) (span : Span) :
  d ∉ docs2 →
  float_geb F32.zero (threshold self) = false →
  spans (set_annotations self (docs1 ++ d :: docs2)
           (reference_matrix self h (docs1 ++ d :: docs2)) h d)
    !! candidates_key self = Some group →
  span ∈ group →
  starts_at self (h d) (start span) ∧ ends_at self (h d) (end_ span - 1).
Proof.
  intros Hlast Hthr Hgroup Hspan.
  destruct (group_members self docs1 d docs2
              (reference_matrix self h (docs1 ++ d :: docs2)) h Hlast)
    as (group' & Hgroup' & Hiff).
  rewrite Hgroup in Hgroup'. injection Hgroup' as <-.
  apply Hiff in Hspan as (Hs & He & _).
  destruct Hs as (k & sc & -> & Hk & Hrow & Hpass).
  destruct He as (k' & sc' & Hk'eq & Hk' & Hrow' & Hpass').
  rewrite Hk'eq. rewrite aligned_row in Hrow, Hrow' by done.
  injection Hrow as <-. injection Hrow' as <-. simpl in Hpass, Hpass'.
  split.
  - apply reference_indices_spec.
    destruct (decide (Z.of_nat k ∈ (reference_indices self (h d)).1))
      as [Hin|Hin]; [done|].
    rewrite bool_decide_eq_false_2 in Hpass by done.
    change (F32.of_Z 0) with F32.zero in Hpass. congruence.
  - apply reference_indices_spec.
    destruct (decide (Z.of_nat k' ∈ (reference_indices self (h d)).2))
      as [Hin|Hin]; [done|].
    rewrite bool_decide_eq_false_2 in Hpass' by done.
    change (F32.of_Z 0) with F32.zero in Hpass'. congruence.
Qed.

Lemma candidates_on_gold_boundaries_witness :
  starts_at (finder 0 0) (heap_gold 0%nat) (start (mkSpan 1 3))
  ∧ ends_at (finder 0 0) (heap_gold 0%nat) (end_ (mkSpan 1 3) - 1).
Proof.
  apply (candidates_on_gold_boundaries (finder 0 0) heap_gold [] 0%nat []
           [mkSpan 1 3] (mkSpan 1 3)).
  - apply not_elem_of_nil.
  - vm_compute. reflexivity.
  - vm_compute. reflexivity.
  - apply list_elem_of_here.
Defined.

(** ** What the reference rows depend on *)

Lemma starts_at_default self doc i :
  starts_at self doc i
  ↔ ∃ span, span ∈ default [] (spans doc !! reference_key self)
            ∧ start span = i.
Proof.
  unfold starts_at. destruct (spans doc !! reference_key self) as [g|]; simpl.
  - split; [intros (g' & span & [= <-] & ?); by exists span|].
    intros (span & ?). by exists g, span.
  - split; [by intros (g' & span & [=] & _)|].
    by intros (span & []%elem_of_nil & _).
Qed.

Lemma ends_at_default self doc i :
  ends_at self doc i
  ↔ ∃ span, span ∈ default [] (spans doc !! reference_key self)
            ∧ end_ span - 1 = i.
Proof.
  unfold ends_at. destruct (spans doc !! reference_key self) as [g|]; simpl.
  - split; [intros (g' & span & [= <-] & ?); by exists span|].
    intros (span & ?). by exists g, span.
  - split; [by intros (g' & span & [=] & _)|].
    by intros (span & []%elem_of_nil & _).
Qed.

(** X14: the rows of a document depend only on its token count and on which
    spans its reference group contains: the order of the gold spans and their
    repetitions do not matter, and an empty group gives the same rows as no
    group at all. *)
Theorem doc_rows_depend_on_span_set (self : SpanFinder) (doc1 doc2 : Doc) :
  doc_len doc1 = doc_len doc2 →
  (∀ span, span ∈ default [] (spans doc1 !! reference_key self)
           ↔ span ∈ default [] (spans doc2 !! reference_key self)) →
  doc_rows self doc1 = doc_rows self doc2.
Proof.
  intros Hlen Hsame.
  assert (reference_indices self doc1 = reference_indices self doc2) as Hind.
  { destruct (reference_indices self doc1) as [s1 e1] eqn:H1,
             (reference_indices self doc2) as [s2 e2] eqn:H2.
    f_equal; apply set_eq; intros i.
    - pose proof (proj1 (reference_indices_spec self doc1 i)) as Hi1.
      pose proof (proj1 (reference_indices_spec self doc2 i)) as Hi2.
      rewrite H1 in Hi1. rewrite H2 in Hi2. simpl in *.
      rewrite Hi1, Hi2, !starts_at_default.
      split; intros (span & Hin & Hi); exists span; split; try done;
        by apply Hsame.
    - pose proof (proj2 (reference_indices_spec self doc1 i)) as Hi1.
      pose proof (proj2 (reference_indices_spec self doc2 i)) as Hi2.
      rewrite H1 in Hi1. rewrite H2 in Hi2. simpl in *.
      rewrite Hi1, Hi2, !ends_at_default.
      split; intros (span & Hin & Hi); exists span; split; try done;
        by apply Hsame. }
  unfold doc_rows, tokens. by rewrite Hind, Hlen.
Qed.

Lemma doc_rows_depend_on_span_set_witness :
  doc_rows (finder 0 0)
    (mkDoc 5 (<[DEFAULT_REFERENCE_KEY := [mkSpan 1 3; mkSpan 0 2; mkSpan 1 3]]> ∅))
  = doc_rows (finder 0 0)
      (mkDoc 5 (<[DEFAULT_REFERENCE_KEY := [mkSpan 0 2; mkSpan 1 3]]> ∅)).
Proof.
  apply doc_rows_depend_on_span_set.
  - reflexivity.
  - intros span. vm_compute default.
    rewrite !elem_of_cons, !elem_of_nil. tauto.
Defined.

(** ** Loss of a perfect prediction *)

Lemma doc_rows_binary self doc :
  Forall (λ r : Z * Z, (r.1 = 0 ∨ r.1 = 1) ∧ (r.2 = 0 ∨ r.2 = 1))
    (doc_rows self doc).
Proof.
  unfold doc_rows. destruct (reference_indices self doc) as [si ei].
  apply Forall_fmap, Forall_forall. intros i _. simpl.
  split; case_bool_decide; auto.
Qed.

Lemma get_reference_binary self docs :
  Forall (λ r : Z * Z, (r.1 = 0 ∨ r.1 = 1) ∧ (r.2 = 0 ∨ r.2 = 1))
    (_get_reference self docs).
Proof.
  induction docs as [|doc docs IH]; [constructor|].
  rewrite get_reference_cons. apply Forall_app. split; [|done].
  apply doc_rows_binary.
Qed.

Lemma row_sub_self rows :
  Forall (λ r : Z * Z, (r.1 = 0 ∨ r.1 = 1) ∧ (r.2 = 0 ∨ r.2 = 1)) rows →
  zip_with row_sub (to_float32 rows) (to_float32 rows) = zeros (length rows).
Proof.
  induction 1 as [|[a b] rows Hab _ IH]; [done|].
  simpl in Hab. unfold to_float32, zeros in *. rewrite fmap_cons. simpl.
  rewrite IH. by destruct Hab as [[-> | ->] [-> | ->]].
Qed.

Section SumOfZeros.
Context {T : Type}.
Variable add : T → T → T.
Variable zero : T.
Hypothesis add_zero : add zero zero = zero.

Lemma foldl_zeros (a : list T) :
  Forall (λ x, x = zero) a → foldl add zero a = zero.
Proof. induction 1 as [|x a -> _ IH]; [done|]. simpl. by rewrite add_zero. Qed.

Lemma zip_with_zeros (r b : list T) :
  Forall (λ x, x = zero) r → Forall (λ x, x = zero) b →
  Forall (λ x, x = zero) (zip_with add r b).
Proof.
  intros Hr. revert b. induction Hr as [|x r -> _ IH]; intros b Hb; [constructor|].
  destruct Hb as [|y b -> Hb]; [constructor|]. simpl. constructor; [done|].
  by apply IH.
Qed.

Lemma accumulate8_zeros blocks (r a : list T) :
  Forall (λ x, x = zero) r → Forall (λ x, x = zero) a →
  Forall (λ x, x = zero) (accumulate8 add r a blocks).1
  ∧ Forall (λ x, x = zero) (accumulate8 add r a blocks).2.
Proof.
  revert r a. induction blocks as [|blocks IH]; intros r a Hr Ha; [done|].
  simpl. apply IH.
  - apply zip_with_zeros; [done | by apply Forall_take].
  - by apply Forall_drop.
Qed.

Lemma combine8_zeros (r : list T) :
  Forall (λ x, x = zero) r → combine8 add zero r = zero.
Proof.
  intros Hr. unfold combine8.
  repeat (destruct Hr as [|? ? -> Hr]; [done|]).
  destruct Hr; [|done]. by rewrite !add_zero.
Qed.

Lemma block_sum_zeros (a : list T) :
  Forall (λ x, x = zero) a → block_sum add zero a = zero.
Proof.
  intros Ha. unfold block_sum.
  destruct (accumulate8_zeros (length a / 8 - 1) (take 8 a) (drop 8 a))
    as [Hr Hrest]; [by apply Forall_take | by apply Forall_drop |].
  destruct (accumulate8 _ _ _ _) as [r rest]. simpl in *.
  rewrite combine8_zeros by done. by apply foldl_zeros.
Qed.

Lemma pairwise_sum_zeros fuel (a : list T) :
  Forall (λ x, x = zero) a → pairwise_sum add zero fuel a = zero.
Proof.
  revert a. induction fuel as [|fuel IH]; intros a Ha; simpl;
    destruct (length a <? 8)%nat; try (by apply foldl_zeros);
    destruct (length a <=? 128)%nat; try (by apply block_sum_zeros).
  rewrite !IH, add_zero; [done | by apply Forall_drop | by apply Forall_take].
Qed.

Lemma np_sum_zeros (a : list T) :
  Forall (λ x, x = zero) a → np_sum add zero a = zero.
Proof.
  intros Ha. unfold np_sum. by rewrite pairwise_sum_zeros, add_zero.
Qed.
End SumOfZeros.

Lemma sum_squares_zeros n : sum (square <$> entries (zeros n)) = F32.zero.
Proof.
  unfold sum. apply np_sum_zeros; [done|].
  apply Forall_fmap, Forall_forall. intros x Hx. simpl.
  unfold entries, zeros in Hx. apply list_elem_of_bind in Hx as (r & Hx & Hr).
  apply elem_of_replicate in Hr as [-> _]. simpl in Hx.
  apply elem_of_cons in Hx as [->|Hx]; [done|].
  apply list_elem_of_singleton in Hx as ->. done.
Qed.

(** X15: when the scores are the reference matrix itself, [get_loss] returns
    the loss 0.0 and a gradient of zeros with one row per token. *)
Theorem perfect_scores_zero_loss (self : SpanFinder) (h : Heap)
  (examples : list Example) :
  reference_of self h examples ≠ [] →
  get_loss self h examples (to_float32 (reference_of self h examples))
  = Returned (F32.zero, zeros (length (reference_of self h examples))).
Proof.
  intros Hne. unfold get_loss, loss_of.
  destruct (asarray_cases (reference_of self h examples))
    as [[Hnil _] | [_ ->]]; [done|].
  rewrite subtract_same_length by done.
  rewrite row_sub_self by apply get_reference_binary.
  by rewrite sum_squares_zeros.
Qed.

Lemma perfect_scores_zero_loss_witness :
  get_loss (finder 0 0) heap_gold [mkExample 0 1]
    (to_float32 (reference_of (finder 0 0) heap_gold [mkExample 0 1]))
  = Returned (F32.zero,
              zeros (length (reference_of (finder 0 0) heap_gold [mkExample 0 1]))).
Proof.
  apply (perfect_scores_zero_loss (finder 0 0) heap_gold [mkExample 0 1]).
  vm_compute. discriminate.
Defined.

(** ** The keyword arguments handed to the scorer *)

Lemma substring_all (s : string) : String.substring 0 (String.length s) s = s.
Proof. induction s as [|c s IH]; [done|]. simpl. by rewrite IH. Qed.

Lemma substring_append (p k : string) :
  String.substring (String.length p)
    (String.length (String.append p k) - String.length p) (String.append p k)
  = k.
Proof.
  induction p as [|c p IH]; simpl.
  - rewrite Nat.sub_0_r. apply substring_all.
  - exact IH.
Qed.

Lemma strip_prefix_attr key : strip_prefix (String.append attr_prefix key) = key.
Proof. unfold strip_prefix. apply substring_append. Qed.

(** X16: when the caller passes no [attr] and no [getter], the scorer is told
    to score the attribute "span_finder_" followed by the candidates key, and
    the getter it is given, applied to that attribute, reads the group under
    the candidates key, or the empty list when the document has none. *)
Theorem default_getter_reads_candidates (candidates_key : string)
  (kwargs : Kwargs) (doc : Doc) :
  attr kwargs = None → getter kwargs = None →
  ∃ a g,
    attr (scorer_kwargs candidates_key kwargs) = Some a
    ∧ getter (scorer_kwargs candidates_key kwargs) = Some g
    ∧ a = String.append "span_finder_" candidates_key
    ∧ g doc a = default [] (spans doc !! candidates_key).
Proof.
  intros Hattr Hgetter. unfold scorer_kwargs. rewrite Hattr, Hgetter. simpl.
  eexists _, _. split; [reflexivity|]. split; [reflexivity|].
  split; [reflexivity|]. simpl. by rewrite strip_prefix_attr.
Qed.

Lemma default_getter_reads_candidates_witness :
  ∃ a g,
    attr (scorer_kwargs DEFAULT_CANDIDATES_KEY no_kwargs) = Some a
    ∧ getter (scorer_kwargs DEFAULT_CANDIDATES_KEY no_kwargs) = Some g
    ∧ a = String.append "span_finder_" DEFAULT_CANDIDATES_KEY
    ∧ g scored_doc a = default [] (spans scored_doc !! DEFAULT_CANDIDATES_KEY).
Proof.
  apply (default_getter_reads_candidates DEFAULT_CANDIDATES_KEY no_kwargs
           scored_doc); reflexivity.
Defined.

(** ** What the scorer is called on, and what the call leaves behind *)

Section CopiedHeap.
Context {Scores : Type}.
Variable score_spans : Heap → list Example → Kwargs → Outcome Scores.
Variables candidates_key reference_key : string.

Lemma span_finder_score_outcome examples kwargs (h : Heap) :
  (span_finder_score score_spans examples candidates_key reference_key kwargs h).1
  = score_spans (copied_heap candidates_key reference_key h examples) examples
      (scorer_kwargs candidates_key kwargs).
Proof.
  unfold span_finder_score, copied_heap.
  rewrite <- (copy_fold_heap candidates_key reference_key examples [] h).
  destruct (foldl _ _ examples) as [origs h1]. simpl.
  by destruct (score_spans h1 examples _).
Qed.

Lemma span_finder_score_raised examples kwargs (h : Heap) e :
  (span_finder_score score_spans examples candidates_key reference_key kwargs h).1
    = Raised e →
  (span_finder_score score_spans examples candidates_key reference_key kwargs h).2
  = copied_heap candidates_key reference_key h examples.
Proof.
  unfold span_finder_score, copied_heap.
  rewrite <- (copy_fold_heap candidates_key reference_key examples [] h).
  destruct (foldl _ _ examples) as [origs h1]. simpl.
  by destruct (score_spans h1 examples _).
Qed.

Lemma copy_reference_gold (h : Heap) eg d :
  spans (copy_reference candidates_key reference_key h eg d) !! reference_key
  = spans (h d) !! reference_key.
Proof.
  unfold copy_reference.
  destruct (spans (h (reference eg)) !! reference_key) as [g|] eqn:Hg; [|done].
  unfold store_group. destruct (decide (reference eg = d)) as [<-|Hd].
  - rewrite fn_lookup_insert. simpl.
    destruct (decide (candidates_key = reference_key)) as [->|Hk].
    + by rewrite lookup_insert_eq.
    + by rewrite lookup_insert_ne.
  - by rewrite fn_lookup_insert_ne.
Qed.

Lemma copy_reference_keeps_copy (h : Heap) eg d g :
  spans (h d) !! reference_key = Some g →
  spans (h d) !! candidates_key = Some g →
  spans (copy_reference candidates_key reference_key h eg d) !! candidates_key
  = Some g.
Proof.
  intros Hgold Hcopy. unfold copy_reference.
  destruct (spans (h (reference eg)) !! reference_key) as [g'|] eqn:Hg; [|done].
  unfold store_group. destruct (decide (reference eg = d)) as [<-|Hd].
  - rewrite fn_lookup_insert. simpl. rewrite lookup_insert_eq. congruence.
  - by rewrite fn_lookup_insert_ne.
Qed.

Lemma copied_heap_keeps_copy examples (h : Heap) d g :
  spans (h d) !! reference_key = Some g →
  spans (h d) !! candidates_key = Some g →
  spans (copied_heap candidates_key reference_key h examples d) !! candidates_key
  = Some g.
Proof.
  unfold copied_heap. revert h.
  induction examples as [|eg examples IH]; intros h Hgold Hcopy; [done|].
  simpl. apply IH.
  - by rewrite copy_reference_gold.
  - by apply copy_reference_keeps_copy.
Qed.

Lemma copied_heap_gold examples (h : Heap) eg g :
  eg ∈ examples →
  spans (h (reference eg)) !! reference_key = Some g →
  spans (copied_heap candidates_key reference_key h examples (reference eg))
    !! candidates_key = Some g.
Proof.
  unfold copied_heap. revert h.
  induction examples as [|eg0 examples IH]; intros h Hin Hgold.
  { by apply elem_of_nil in Hin. }
  simpl. apply elem_of_cons in Hin as [->|Hin].
  - apply copied_heap_keeps_copy.
    + by rewrite copy_reference_gold.
    + unfold copy_reference. rewrite Hgold. unfold store_group.
      rewrite fn_lookup_insert. simpl. by rewrite lookup_insert_eq.
  - apply IH; [done|]. by rewrite copy_reference_gold.
Qed.

(** The second loop leaves alone what it is not told to restore. *)
Lemma restore_any_same (l : list (option SpanGroup * Example)) (h : Heap) d :
  same_but candidates_key (foldl (restore_step candidates_key) h l d) (h d).
Proof.
  revert h. induction l as [|[o eg] l IH]; intros h; [apply same_but_refl|].
  simpl. eapply same_but_trans; [apply IH|].
  unfold restore_step. simpl. destruct o; [|apply same_but_refl].
  apply store_group_same.
Qed.

Lemma restore_any_other (l : list (option SpanGroup * Example)) (h : Heap) d :
  d ∉ reference <$> l.*2 →
  foldl (restore_step candidates_key) h l d = h d.
Proof.
  revert h. induction l as [|[o eg] l IH]; intros h Hd; [done|].
  simpl in *. apply not_elem_of_cons in Hd as [Hne Hd].
  rewrite IH by done. unfold restore_step. simpl. destruct o; [|done].
  by apply store_group_other.
Qed.

Lemma span_finder_score_same examples kwargs (h : Heap) d :
  same_but candidates_key
    ((span_finder_score score_spans examples candidates_key reference_key
        kwargs h).2 d) (h d).
Proof.
  unfold span_finder_score.
  pose proof (copy_fold_heap candidates_key reference_key examples [] h)
    as Hheap.
  destruct (foldl _ _ examples) as [origs h1]. simpl in Hheap. subst h1.
  destruct (score_spans _ examples _); simpl.
  - eapply same_but_trans; [apply restore_any_same | apply copy_fold_same].
  - apply copy_fold_same.
Qed.

Lemma span_finder_score_other examples kwargs (h : Heap) d :
  d ∉ reference <$> examples →
  (span_finder_score score_spans examples candidates_key reference_key
     kwargs h).2 d = h d.
Proof.
  intros Hd. unfold span_finder_score.
  pose proof (copy_fold_heap candidates_key reference_key examples [] h)
    as Hheap.
  destruct (foldl _ _ examples) as [origs h1]. simpl in Hheap. subst h1.
  destruct (score_spans _ examples _); simpl.
  - rewrite restore_any_other; [apply copy_fold_other; auto|].
    intros Hin. apply Hd. apply list_elem_of_fmap in Hin as (eg & -> & Hin).
    apply list_elem_of_fmap_2.
    apply list_elem_of_fmap in Hin as ([o eg'] & -> & Hin).
    by apply elem_of_zip_r in Hin.
  - apply copy_fold_other. auto.
Qed.
End CopiedHeap.

(** X17: the scorer is called on a heap in which every reference document
    that has a gold group carries that group under the candidates key, with
    the keyword arguments completed by the defaults, and its outcome, scores
    or exception, is the outcome of [span_finder_score]. *)
Theorem scorer_sees_gold_as_candidates {Scores : Type}
  (score_spans : Heap → list Example → Kwargs → Outcome Scores)
  (examples : list Example) (candidates_key reference_key : string)
  (kwargs : Kwargs) (h : Heap) :
  (span_finder_score score_spans examples candidates_key reference_key kwargs h).1
  = score_spans (copied_heap candidates_key reference_key h examples) examples
      (scorer_kwargs candidates_key kwargs)
  ∧ ∀ eg gold,
      eg ∈ examples →
      spans (h (reference eg)) !! reference_key = Some gold →
      spans (copied_heap candidates_key reference_key h examples (reference eg))
        !! candidates_key = Some gold.
Proof.
  split; [apply span_finder_score_outcome|].
  intros eg gold. apply copied_heap_gold.
Qed.

Lemma scorer_sees_gold_as_candidates_witness :
  spans (copied_heap DEFAULT_CANDIDATES_KEY DEFAULT_REFERENCE_KEY scored_heap
           [mkExample 0 1] (reference (mkExample 0 1)))
    !! DEFAULT_CANDIDATES_KEY = Some [mkSpan 0 2].
Proof.
  apply (proj2 (scorer_sees_gold_as_candidates counting_scorer [mkExample 0 1]
                  DEFAULT_CANDIDATES_KEY DEFAULT_REFERENCE_KEY no_kwargs
                  scored_heap)).
  - apply list_elem_of_here.
  - vm_compute. reflexivity.
Defined.

(** X18: whether the scorer returns or raises, [span_finder_score] changes no
    token count and no group under a key other than the candidates key, and
    leaves every document that is the reference of no example, the predicted
    documents among them, exactly as it was. *)
Theorem span_finder_score_frame {Scores : Type}
  (score_spans : Heap → list Example → Kwargs → Outcome Scores)
  (examples : list Example) (candidates_key reference_key : string)
  (kwargs : Kwargs) (h : Heap) (d : DocId) :
  doc_len ((span_finder_score score_spans examples candidates_key reference_key
              kwargs h).2 d) = doc_len (h d)
  ∧ (∀ key, key ≠ candidates_key →
       spans ((span_finder_score score_spans examples candidates_key
                 reference_key kwargs h).2 d) !! key = spans (h d) !! key)
  ∧ (d ∉ reference <$> examples →
     (span_finder_score score_spans examples candidates_key reference_key
        kwargs h).2 d = h d).
Proof.
  destruct (span_finder_score_same score_spans candidates_key reference_key
              examples kwargs h d) as [Hlen Hspans].
  split; [exact Hlen|]. split; [exact Hspans|].
  apply span_finder_score_other.
Qed.

Section SameKey.
Variable key : string.

Lemma copy_reference_same_key (h : Heap) eg d :
  copy_reference key key h eg d = h d.
Proof.
  unfold copy_reference.
  destruct (spans (h (reference eg)) !! key) as [g|] eqn:Hg; [|done].
  destruct (decide (reference eg = d)) as [<-|Hd].
  - apply store_group_restores; [apply same_but_refl | done].
  - by apply store_group_other.
Qed.

Lemma copy_fold_same_key examples acc (h0 h : Heap) :
  (∀ d, h d = h0 d) →
  (∀ d, (foldl (copy_step key key) (acc, h) examples).2 d = h0 d)
  ∧ (foldl (copy_step key key) (acc, h) examples).1
    = acc ++ origs_of key h0 examples.
Proof.
  revert acc h. induction examples as [|eg examples IH]; intros acc h Hh.
  - simpl. by rewrite app_nil_r.
  - simpl. unfold copy_step at 2 4. simpl.
    destruct (IH (acc ++ [spans (h (reference eg)) !! key])
                (copy_reference key key h eg)) as [IH1 IH2].
    { intros d. by rewrite copy_reference_same_key. }
    split; [exact IH1|]. rewrite IH2, <- app_assoc. simpl. by rewrite Hh.
Qed.
End SameKey.

(** X19: when the reference key is the candidates key, [span_finder_score]
    leaves every document exactly as it was, whether the scorer returns or
    raises. *)
Theorem same_key_changes_nothing {Scores : Type}
  (score_spans : Heap → list Example → Kwargs → Outcome Scores)
  (examples : list Example) (key : string) (kwargs : Kwargs) (h : Heap)
  (d : DocId) :
  (span_finder_score score_spans examples key key kwargs h).2 d = h d.
Proof.
  unfold span_finder_score.
  destruct (copy_fold_same_key key examples [] h h (λ _, eq_refl))
    as [Hheap Horigs].
  destruct (foldl (copy_step key key) ([], h) examples) as [origs h1].
  simpl in Hheap, Horigs. subst origs.
  destruct (score_spans h1 examples _); simpl; [|apply Hheap].
  rewrite zip_origs.
  destruct (decide (d ∈ reference <$> examples)) as [Hin|Hin].
  - destruct (spans (h d) !! key) as [g|] eqn:Hg.
    + apply restore_fold_restores; [|done|by rewrite Hg].
      intros d'. rewrite Hheap. apply same_but_refl.
    + rewrite restore_fold_other by auto. apply Hheap.
  - rewrite restore_fold_other by auto. apply Hheap.
Qed.

(** ** Training step and initialisation *)

Lemma subbatch_fold (acc l : list Example) :
  foldl subbatch_step acc l = acc ++ take (10 - length acc) l.
Proof.
  revert acc. induction l as [|eg l IH]; intros acc.
  - by rewrite take_nil, app_nil_r.
  - simpl foldl. rewrite IH. unfold subbatch_step.
    destruct (Nat.ltb_spec (length acc) 10) as [Hlt|Hge].
    + rewrite length_app. simpl length.
      replace (10 - length acc)%nat with (S (10 - (length acc + 1)))%nat by lia.
      simpl. by rewrite <- app_assoc.
    + replace (10 - length acc)%nat with 0%nat by lia. done.
Qed.

Section TrainingProperties.
Context {Model Optimizer : Type}.
Variable set_dropout_rate : Model → float → Model.
Variable begin_update : Model → list Doc → Floats2d * (Floats2d → Model → Model).
Variable finish_update : Optimizer → Model → Model.
Variable model_initialize : option (list Doc * ndarray) → Model → Model.

(** X20: [initialize] uses the first ten examples, or all of them when there
    are fewer: the model is initialised with their reference documents and
    with the array made from the rows of those documents; without any example
    it is initialised without a sample. *)
Theorem initialize_first_ten (self : SpanFinder) (h : Heap)
  (get_examples : list Example) (m : Model) :
  (get_examples = [] →
   initialize model_initialize self h get_examples m = model_initialize None m)
  ∧ (get_examples ≠ [] →
     initialize model_initialize self h get_examples m
     = model_initialize
         (Some ((λ eg, h (reference eg)) <$> take 10 get_examples,
                asarray (reference_of self h (take 10 get_examples)))) m)
  ∧ initialize model_initialize self h get_examples m
    = initialize model_initialize self h (take 10 get_examples) m.
Proof.
  assert (∀ l, initialize model_initialize self h l m
               = match take 10 l with
                 | [] => model_initialize None m
                 | _ => model_initialize
                          (Some ((λ eg, h (reference eg)) <$> take 10 l,
                                 asarray (reference_of self h (take 10 l)))) m
                 end) as Hinit.
  { intros l. unfold initialize. rewrite subbatch_fold. simpl.
    by destruct (take 10 l). }
  split; [by intros ->|]. split.
  - intros Hne. rewrite Hinit. by destruct get_examples.
  - rewrite !Hinit, take_take. done.
Qed.

(** X21: when [update] returns, the entry of [losses] under the component name
    is its former value, or 0.0 when it had none or no dictionary was passed,
    plus the loss that [get_loss] computes for the scores of the model in
    binary64, and every other entry is what the caller passed. *)
Theorem update_accumulates_loss (self : SpanFinder) (name : string) (h : Heap)
  (examples : list Example) (drop : float) (sgd : option Optimizer)
  (losses : option (gmap string float)) (m : Model)
  (result : gmap string float) (state : gmap string float * Model) :
  update set_dropout_rate begin_update finish_update self name h examples drop
    sgd losses m = (Returned result, state) →
  (∃ loss d_scores,
     get_loss self h examples
       (begin_update (set_dropout_rate m drop)
          ((λ eg, h (predicted eg)) <$> examples)).1
       = Returned (loss, d_scores)
     ∧ result !! name
       = Some (F64.add (default F64.zero (default ∅ losses !! name)) loss))
  ∧ (∀ key, key ≠ name → result !! key = default ∅ losses !! key)
  ∧ state.1 = result.
Proof.
  unfold update.
  destruct (begin_update _ _) as [scores backprop_scores]. simpl.
  destruct (get_loss self h examples scores) as [[loss d_scores]|e]; [|done].
  intros [= <- <-]. split; [|split; [|done]].
  - exists loss, d_scores. split; [done|].
    rewrite lookup_alter_eq. unfold dict_setdefault.
    destruct (default ∅ losses !! name) as [total|] eqn:Hname; simpl.
    + by rewrite Hname.
    + by rewrite lookup_insert_eq.
  - intros key Hkey. rewrite lookup_alter_ne by done. unfold dict_setdefault.
    destruct (default ∅ losses !! name); [done|]. by rewrite lookup_insert_ne.
Qed.

(** X22: on a batch whose reference documents have no token at all, an empty
    batch among them, [update] raises: the model has received the dropout rate
    but no gradient and no optimizer step, and the dictionary of the caller
    has received the entry of the component. *)
Theorem update_raises_without_tokens (self : SpanFinder) (name : string)
  (h : Heap) (examples : list Example) (drop : float) (sgd : option Optimizer)
  (losses : option (gmap string float)) (m : Model) :
  reference_of self h examples = [] →
  update set_dropout_rate begin_update finish_update self name h examples drop
    sgd losses m
  = (Raised ValueError,
     (dict_setdefault name F64.zero (default ∅ losses), set_dropout_rate m drop)).
Proof.
  intros Hnil. unfold update, get_loss, loss_of. rewrite Hnil.
  by destruct (begin_update _ _) as [scores backprop_scores].
Qed.
End TrainingProperties.

Lemma initialize_first_ten_witness :
  initialize toy_initialize (finder 0 0) heap2
    (replicate 12 (mkExample 0 1)) 0%nat = 10%nat.
Proof.
  rewrite (proj1 (proj2 (initialize_first_ten toy_initialize (finder 0 0) heap2
                           (replicate 12 (mkExample 0 1)) 0%nat))).
  - reflexivity.
  - discriminate.
Defined.

Lemma update_accumulates_loss_witness :
  (toy_update heap2 [mkExample 0 1] None).2.1 !! "span_finder"
  = Some (F64.add F64.zero F32.one).
Proof.
  destruct (update_accumulates_loss toy_set_dropout_rate toy_begin_update
              toy_finish_update (finder 0 0) "span_finder" heap2
              [mkExample 0 1] F32.zero (Some tt) None 0%nat
              (toy_update heap2 [mkExample 0 1] None).2.1
              (toy_update heap2 [mkExample 0 1] None).2)
    as ((loss & d_scores & Hloss & Hentry) & _).
  - vm_compute. reflexivity.
  - rewrite Hentry. vm_compute in Hloss. injection Hloss as <- _. reflexivity.
Defined.

Lemma update_raises_without_tokens_witness :
  toy_update heap2 [] None
  = (Raised ValueError,
     (dict_setdefault "span_finder" F64.zero (default ∅ None), 0%nat)).
Proof.
  apply (update_raises_without_tokens toy_set_dropout_rate toy_begin_update
           toy_finish_update (finder 0 0) "span_finder" heap2 [] F32.zero
           (Some tt) None 0%nat).
  reflexivity.
Defined.

Lemma set_annotations_frame_witness :
  set_annotations (finder 0 0) [0%nat] scores4 heap4 1%nat = heap4 1%nat.
Proof.
  apply (proj2 (proj2 (set_annotations_frame (finder 0 0) [0%nat] scores4 heap4
                         1%nat))).
  apply not_elem_of_cons. split; [discriminate | apply not_elem_of_nil].
Defined.

Lemma split_scores_reassemble_witness :
  concat (split_scores scores4 0 [1; 3]%nat) = scores4.
Proof.
  apply (proj2 (split_scores_reassemble scores4 [1; 3]%nat)). reflexivity.
Defined.

Lemma span_finder_score_frame_witness :
  (span_finder_score raising_scorer [mkExample 0 1] DEFAULT_CANDIDATES_KEY
     DEFAULT_REFERENCE_KEY no_kwargs scored_heap).2 0%nat
  = scored_heap 0%nat.
Proof.
  apply (proj2 (proj2 (span_finder_score_frame raising_scorer [mkExample 0 1]
                         DEFAULT_CANDIDATES_KEY DEFAULT_REFERENCE_KEY no_kwargs
                         scored_heap 0%nat))).
  apply not_elem_of_cons. split; [discriminate | apply not_elem_of_nil].
Defined.

(** ** Thresholds in binary64 against scores in binary32 *)

Example below_threshold_no_candidate :
  spans (set_annotations
           (mkSpanFinder half64 0 0 DEFAULT_CANDIDATES_KEY DEFAULT_REFERENCE_KEY)
           [0%nat] (replicate 4 (quarter32, quarter32)) heap4 0%nat)
    !! DEFAULT_CANDIDATES_KEY = Some [].
Proof. vm_compute. reflexivity. Qed.

Example threshold_above_one_recovers_nothing :
  float_geb F32.one two64 = false
  ∧ spans (set_annotations
             (mkSpanFinder two64 0 0 DEFAULT_CANDIDATES_KEY DEFAULT_REFERENCE_KEY)
             [0%nat]
             (reference_matrix
                (mkSpanFinder two64 0 0 DEFAULT_CANDIDATES_KEY
                   DEFAULT_REFERENCE_KEY) heap_gold [0%nat])
             heap_gold 0%nat) !! DEFAULT_CANDIDATES_KEY = Some [].
Proof. split; vm_compute; reflexivity. Qed.
